(** * Frescobaldi: the Music View's "Edit in Place" dialog

    A shallow embedding of [frescobaldi_app/musicview/editinplace.py].

    The dialog copies one line of a host document into a private scratch
    document, lets the user edit it and writes it back on acceptance.  The
    Python code is glue over Qt objects, so the embedding is a small object
    store: host documents (text, undo stack, the receivers of their [closed]
    signal), a heap of [QTextCursor] objects addressed by reference, and the
    dialog with its view, highlighter, geometry and message.

    Text is a flat list of characters in which [newline] separates the
    blocks (lines) of a document, as in Qt's text engine. *)

From Stdlib Require Import ZArith Lia Ascii String Decimal DecimalString.
From stdpp Require Import base option list gmap.

Local Open Scope nat_scope.

(** ** Text and blocks *)

Definition text := list ascii.

Definition newline : ascii := "010"%char.

Definition is_newline (c : ascii) : bool := Ascii.eqb c newline.

Definition not_newline (c : ascii) : bool := negb (is_newline c).

Fixpoint takeWhile {A} (f : A → bool) (l : list A) : list A :=
  match l with
  | [] => []
  | x :: r => if f x then x :: takeWhile f r else []
  end.

Fixpoint dropWhile {A} (f : A → bool) (l : list A) : list A :=
  match l with
  | [] => []
  | x :: r => if f x then dropWhile f r else l
  end.

Fixpoint count_newlines (t : text) : nat :=
  match t with
  | [] => 0
  | c :: r => (if is_newline c then 1 else 0) + count_newlines r
  end.

(** The part of the block containing [pos] that lies before [pos], and the
    part from [pos] to the end of the block. *)
Definition block_before (t : text) (pos : nat) : text :=
  reverse (takeWhile not_newline (reverse (take pos t))).

Definition block_after (t : text) (pos : nat) : text :=
  takeWhile not_newline (drop pos t).

(** [QTextBlock.position()] of [QTextCursor.block()]. *)
Definition block_position (t : text) (pos : nat) : nat :=
  pos - length (block_before t pos).

(** The position [QTextCursor.EndOfBlock] moves to. *)
Definition block_end (t : text) (pos : nat) : nat :=
  pos + length (block_after t pos).

(** [QTextBlock.text()]. *)
Definition block_text (t : text) (pos : nat) : text :=
  block_before t pos ++ block_after t pos.

(** [QTextBlock.blockNumber()]. *)
Definition block_number (t : text) (pos : nat) : nat :=
  count_newlines (take pos t).

(** Qt's [toPlainText], of a document or of a selection: a no-break space
    (U+00A0) comes out as a space.  The characters of the model are the
    code points below 256; the separators U+2028, U+2029, U+FDD0 and U+FDD1,
    which [toPlainText] turns into a line feed, lie beyond them, and the
    block separator of the model is the line feed itself.  The text of the
    view ([view_text] below) is kept as [toPlainText] reports it. *)
Definition nbsp : ascii := "160"%char.

Definition plain_char (c : ascii) : ascii :=
  if Ascii.eqb c nbsp then " "%char else c.

Definition toPlainText (t : text) : text := map plain_char t.


(** [QTextCursor.selection().toPlainText()] for a selection between two
    positions. *)
Definition selected_text (t : text) (a p : nat) : text :=
  toPlainText (take (Nat.max a p - Nat.min a p) (drop (Nat.min a p) t)).

(** [is_line t pre L post]: the text [t] has the line [L] between [pre] and
    [post]. *)
Definition is_line (t pre L post : text) : Prop :=
  t = pre ++ L ++ post
  ∧ (pre = [] ∨ ∃ pre', pre = pre' ++ [newline])
  ∧ forallb not_newline L = true
  ∧ (post = [] ∨ ∃ post', post = newline :: post').

(** ** Host documents *)

Record QTextDocument := mkDocument {
  doc_text : text;
  documentName : text;
  (* metainfo.info(document).highlighting *)
  info_highlighting : bool;
  (* undo steps, most recent first: the text each step restores *)
  undoStack : list text;
  (* nesting depth of beginEditBlock() / endEditBlock() *)
  editBlockDepth : nat;
  (* whether the open edit block already owns an undo step *)
  editBlockGrouped : bool;
  (* how often this dialog's reject() is connected to the closed signal *)
  closed_receivers : nat
}.

Definition set_doc_text (t : text) (d : QTextDocument) : QTextDocument :=
  mkDocument t (documentName d) (info_highlighting d) (undoStack d)
             (editBlockDepth d) (editBlockGrouped d) (closed_receivers d).

Definition set_closed_receivers (n : nat) (d : QTextDocument) : QTextDocument :=
  mkDocument (doc_text d) (documentName d) (info_highlighting d) (undoStack d)
             (editBlockDepth d) (editBlockGrouped d) n.

Definition text_eqb (a b : text) : bool := bool_decide (a = b).

(** A change of the document text.  Outside an edit block every change is
    an undo step of its own; inside one, the first change opens the step of
    the block and later changes join it.  A change that leaves the text as
    it is records nothing. *)
Definition modify (new : text) (d : QTextDocument) : QTextDocument :=
  if text_eqb new (doc_text d) then d
  else if (editBlockDepth d =? 0) || negb (editBlockGrouped d)
  then mkDocument new (documentName d) (info_highlighting d)
                  (doc_text d :: undoStack d)
                  (editBlockDepth d) (negb (editBlockDepth d =? 0))
                  (closed_receivers d)
  else set_doc_text new d.

Definition beginEditBlock (d : QTextDocument) : QTextDocument :=
  mkDocument (doc_text d) (documentName d) (info_highlighting d) (undoStack d)
             (S (editBlockDepth d))
             (if editBlockDepth d =? 0 then false else editBlockGrouped d)
             (closed_receivers d).

Definition endEditBlock (d : QTextDocument) : QTextDocument :=
  mkDocument (doc_text d) (documentName d) (info_highlighting d) (undoStack d)
             (pred (editBlockDepth d)) (editBlockGrouped d)
             (closed_receivers d).

Definition undo (d : QTextDocument) : QTextDocument :=
  match undoStack d with
  | [] => d
  | t :: s =>
      mkDocument t (documentName d) (info_highlighting d) s
                 (editBlockDepth d) (editBlockGrouped d) (closed_receivers d)
  end.

(** ** Cursors *)

Record QTextCursor := mkCursor {
  cursor_document : nat;   (* the document the cursor belongs to *)
  anchor : nat;
  position : nat
}.

Definition selectionStart (c : QTextCursor) : nat := Nat.min (anchor c) (position c).
Definition selectionEnd (c : QTextCursor) : nat := Nat.max (anchor c) (position c).
Definition hasSelection (c : QTextCursor) : bool := negb (anchor c =? position c).

Inductive MoveMode := MoveAnchor | KeepAnchor.

(** [QTextCursor.setPosition(pos, mode)]: Qt ignores a position outside the
    document. *)
Definition setPosition (t : text) (pos : nat) (m : MoveMode) (c : QTextCursor)
  : QTextCursor :=
  if pos <=? length t then
    mkCursor (cursor_document c)
             (match m with MoveAnchor => pos | KeepAnchor => anchor c end) pos
  else c.

(** [QTextCursor.movePosition(QTextCursor.EndOfBlock, mode)]. *)
Definition movePosition_EndOfBlock (t : text) (m : MoveMode) (c : QTextCursor)
  : QTextCursor :=
  setPosition t (block_end t (position c)) m c.

(** ** Geometry *)

Local Open Scope Z_scope.

Record QPoint := mkPoint { px : Z; py : Z }.

(** Qt keeps a rectangle as its two corner points; the height counts both
    border rows. *)
Record QRect := mkRect { x1 : Z; y1 : Z; x2 : Z; y2 : Z }.

Definition width (r : QRect) : Z := x2 r - x1 r + 1.
Definition height (r : QRect) : Z := y2 r - y1 r + 1.
Definition top (r : QRect) : Z := y1 r.
Definition bottom (r : QRect) : Z := y2 r.

(** [QRect::moveCenter]; the division is C++ integer division. *)
Definition moveCenter (p : QPoint) (r : QRect) : QRect :=
  let w := x2 r - x1 r in
  let h := y2 r - y1 r in
  let nx1 := px p - Z.quot w 2 in
  let ny1 := py p - Z.quot h 2 in
  mkRect nx1 ny1 (nx1 + w) (ny1 + h).

Definition moveTop (pos : Z) (r : QRect) : QRect :=
  mkRect (x1 r) pos (x2 r) (y2 r + (pos - y1 r)).

Definition moveBottom (pos : Z) (r : QRect) : QRect :=
  mkRect (x1 r) (y1 r + (pos - y2 r)) (x2 r) pos.

Local Close Scope Z_scope.

(** ** Message formatting *)

(** [str(n)] for a natural number. *)
Definition str_of_nat (n : nat) : text :=
  list_ascii_of_string (NilEmpty.string_of_uint (Nat.to_uint n)).

Inductive segment :=
| Lit (c : ascii)
| Field (name : text).

(** The replacement fields of a [str.format] template: [{name}] is a field,
    any other character is literal.  The second argument is the field name
    read so far, when inside braces. *)
Fixpoint parse_template (s : text) (field : option text) : list segment :=
  match s, field with
  | [], _ => []
  | c :: r, None =>
      if Ascii.eqb c "{"%char then parse_template r (Some [])
      else Lit c :: parse_template r None
  | c :: r, Some acc =>
      if Ascii.eqb c "}"%char then Field acc :: parse_template r None
      else parse_template r (Some (acc ++ [c]))
  end.

Definition render (kw : text → text) (s : segment) : text :=
  match s with
  | Lit c => [c]
  | Field name => kw name
  end.

(** [template.format] applied to keyword arguments [kw]. *)
Definition format (template : text) (kw : text → text) : text :=
  concat (map (render kw) (parse_template template None)).

Definition lit (s : string) : text := list_ascii_of_string s.

(** The keyword arguments of the call in [updateMessage]. *)
Definition message_kw (linenum document variable : text) (name : text) : text :=
  if bool_decide (name = lit "linenum") then linenum
  else if bool_decide (name = lit "document") then document
  else if bool_decide (name = lit "variable") then variable
  else [].

Definition dquote : ascii := "034"%char.

Definition editing_template : text :=
  lit "Editing line {linenum} of " ++ [dquote] ++ lit "{document}"
    ++ [dquote] ++ lit " ({variable})".

(** ** The view *)

Record View := mkView {
  view_text : text;         (* the scratch document *)
  view_anchor : nat;        (* the view's text cursor *)
  view_position : nat;
  view_focus : bool
}.

(** [QPlainTextEdit.setPlainText]: the text is replaced and the text cursor
    returns to the start. *)
Definition setPlainText (t : text) (v : View) : View :=
  mkView t 0 0 (view_focus v).

(** [cursor = view.textCursor(); cursor.setPosition(pos);
    view.setTextCursor(cursor)]. *)
Definition view_setCursorPosition (pos : nat) (v : View) : View :=
  if pos <=? length (view_text v)
  then mkView (view_text v) pos pos (view_focus v)
  else v.

Definition setFocus (v : View) : View :=
  mkView (view_text v) (view_anchor v) (view_position v) true.

Section ViewEvent.

(** Qt's side of event handling: the comparison of an event with a
    standard key, and [QPlainTextEdit.event]. *)
Variable QEvent : Type.
Variable StandardKey : Type.
Variable InsertLineSeparator : StandardKey.
Variable event_matches : QEvent → StandardKey → bool.
Variable QPlainTextEdit_event : View → QEvent → View * bool.

(** [View.event]. *)
Definition View_event (v : View) (ev : QEvent) : View * bool :=
  if event_matches ev InsertLineSeparator then (v, false)
  else QPlainTextEdit_event v ev.

End ViewEvent.

(** ** The dialog *)

Inductive DialogCode := Rejected | Accepted.

Section Dialog.

(** The collaborators of the dialog that live in other modules of the
    application. *)

(** Which characters make up indentation. *)
Variable is_indent : ascii → bool.
(** The tokenizer state of the highlighting engine at a position of a
    document. *)
Variable LexState : Type.
Variable lexer_state_at : text → nat → LexState.
(** [indent.re_indent]: the text after re-indenting the selection of a
    cursor (anchor, position). *)
Variable re_indent : text → nat → nat → text.
(** [tooltip.get_definition]. *)
Variable get_definition : text → QTextCursor → option text.
(** The translation function [_]. *)
Variable gettext : text → text.

Record Dialog := mkDialog {
  _document : option nat;          (* the host document *)
  _range : option nat;             (* reference of the tracked cursor *)
  view : View;
  hl_initial_state : option LexState;
  hl_highlighting : bool;
  message : text;
  geometry : QRect;
  visible : bool;
  result : option DialogCode
}.

Record World := mkWorld {
  docs : gmap nat QTextDocument;
  cursors : list QTextCursor;      (* the cursor objects, by reference *)
  dialog : Dialog
}.

Definition set_dialog (f : Dialog → Dialog) (w : World) : World :=
  mkWorld (docs w) (cursors w) (f (dialog w)).

Definition set_document (d : option nat) (g : Dialog) : Dialog :=
  mkDialog d (_range g) (view g) (hl_initial_state g) (hl_highlighting g)
           (message g) (geometry g) (visible g) (result g).

Definition set_range (r : option nat) (g : Dialog) : Dialog :=
  mkDialog (_document g) r (view g) (hl_initial_state g) (hl_highlighting g)
           (message g) (geometry g) (visible g) (result g).

Definition set_view (f : View → View) (g : Dialog) : Dialog :=
  mkDialog (_document g) (_range g) (f (view g)) (hl_initial_state g)
           (hl_highlighting g) (message g) (geometry g) (visible g) (result g).

Definition setInitialState (s : LexState) (g : Dialog) : Dialog :=
  mkDialog (_document g) (_range g) (view g) (Some s) (hl_highlighting g)
           (message g) (geometry g) (visible g) (result g).

Definition setHighlighting (b : bool) (g : Dialog) : Dialog :=
  mkDialog (_document g) (_range g) (view g) (hl_initial_state g) b
           (message g) (geometry g) (visible g) (result g).

Definition setMessage (m : text) (g : Dialog) : Dialog :=
  mkDialog (_document g) (_range g) (view g) (hl_initial_state g)
           (hl_highlighting g) m (geometry g) (visible g) (result g).

Definition setGeometry (r : QRect) (g : Dialog) : Dialog :=
  mkDialog (_document g) (_range g) (view g) (hl_initial_state g)
           (hl_highlighting g) (message g) r (visible g) (result g).

Definition show (g : Dialog) : Dialog :=
  mkDialog (_document g) (_range g) (view g) (hl_initial_state g)
           (hl_highlighting g) (message g) (geometry g) true (result g).

Definition hide_with_result (r : DialogCode) (g : Dialog) : Dialog :=
  mkDialog (_document g) (_range g) (view g) (hl_initial_state g)
           (hl_highlighting g) (message g) (geometry g) false (Some r).

(** *** Signals *)

(** [document.closed.connect(self.reject)]. *)
Definition connect_closed (d : nat) (w : World) : option World :=
  hd ← docs w !! d;
  Some (mkWorld (<[d := set_closed_receivers (S (closed_receivers hd)) hd]> (docs w))
                (cursors w) (dialog w)).

(** [document.closed.disconnect(self.reject)]; disconnecting what is not
    connected raises. *)
Definition disconnect_closed (d : nat) (w : World) : option World :=
  hd ← docs w !! d;
  match closed_receivers hd with
  | 0 => None
  | S n =>
      Some (mkWorld (<[d := set_closed_receivers n hd]> (docs w))
                    (cursors w) (dialog w))
  end.

(** *** Cursor objects *)

(** [QTextCursor(cursor)]: a new cursor object, a copy of the given one;
    returns its reference. *)
Definition QTextCursor_copy (r : nat) (w : World) : option (World * nat) :=
  c ← cursors w !! r;
  Some (mkWorld (docs w) (cursors w ++ [c]) (dialog w), length (cursors w)).

(** A method call that changes the cursor object behind a reference. *)
Definition update_cursor (r : nat) (f : QTextCursor → QTextCursor) (w : World)
  : option World :=
  c ← cursors w !! r;
  Some (mkWorld (docs w) (<[r := f c]> (cursors w)) (dialog w)).

(** Modelled from the spec: [cursortools.strip_indent] is not part of the
    file; the indentation engine "strips leading indentation" from the
    cursor, which leaves the cursor behind the leading indentation
    characters of its block. *)
Definition strip_indent (t : text) (c : QTextCursor) : QTextCursor :=
  setPosition t
    (block_position t (position c)
     + length (takeWhile is_indent (block_text t (position c))))
    MoveAnchor c.

(** Modelled from the spec: [tokeniter.state] is not part of the file; it
    supplies the tokenizer state "captured at the start of the extracted
    line", the line of the cursor it is given. *)
Definition tokeniter_state (t : text) (c : QTextCursor) : LexState :=
  lexer_state_at t (block_position t (position c)).

(** *** [Dialog.updateMessage] *)

(** Python's [x or y] on an optional string. *)
Definition or_else (x : option text) (y : text) : text :=
  match x with
  | Some (c :: r) => c :: r
  | _ => y
  end.

Definition updateMessage (w : World) : option World :=
  match _document (dialog w) with
  | Some d =>
      hd ← docs w !! d;
      r ← _range (dialog w);
      c ← cursors w !! r;
      let linenum := block_number (doc_text hd) (position c) + 1 in
      let document := documentName hd in
      let variable :=
        or_else (get_definition (doc_text hd) c) (gettext (lit "<unknown>")) in
      Some (set_dialog
              (setMessage
                 (format (gettext editing_template)
                         (message_kw (str_of_nat linenum) document variable)))
              w)
  | None => Some (set_dialog (setMessage (lit "<no document set>")) w)
  end.

(** *** [Dialog.edit] *)

(** Lines 79 to 82: the [closed] signal of the previous host document is
    disconnected, the one of the new host document connected. *)
Definition track_document (d : nat) (w : World) : option World :=
  w ← match _document (dialog w) with
      | Some d0 => disconnect_closed d0 w
      | None => Some w
      end;
  let w := set_dialog (set_document (Some d)) w in
  connect_closed d w.

Definition Dialog_edit (cursor : nat) (w : World) : option World :=
  cur ← cursors w !! cursor;
  let d := cursor_document cur in
  w ← track_document d w;
  hd ← docs w !! d;
  let t := doc_text hd in
  (* c = self._range = QTextCursor(cursor): one object, two names *)
  '(w, c) ← QTextCursor_copy cursor w;
  let w := set_dialog (set_range (Some c)) w in
  c0 ← cursors w !! c;
  let cursorpos := (Z.of_nat (position c0) - Z.of_nat (block_position t (position c0)))%Z in
  w ← update_cursor c (strip_indent t) w;
  c1 ← cursors w !! c;
  let indentpos := (Z.of_nat (position c1) - Z.of_nat (block_position t (position c1)))%Z in
  w ← update_cursor c (movePosition_EndOfBlock t KeepAnchor) w;
  c2 ← cursors w !! c;
  let w := set_dialog
             (set_view (setPlainText (selected_text t (anchor c2) (position c2)))) w in
  cur' ← cursors w !! cursor;
  let w := set_dialog (setInitialState (tokeniter_state t cur')) w in
  let w := set_dialog (setHighlighting (info_highlighting hd)) w in
  let w := set_dialog
             (set_view (view_setCursorPosition
                          (Z.to_nat (Z.max 0 (cursorpos - indentpos))%Z))) w in
  updateMessage w.

(** *** [Dialog.popup] *)

Definition Dialog_popup (position : QPoint) (g : Dialog) : Dialog :=
  let geom := geometry g in
  let geom := moveCenter position geom in
  let geom :=
    if (py position <=? height geom + 60)%Z
    then moveTop (py position + 60)%Z geom
    else moveBottom (py position - 60)%Z geom in
  show (set_view setFocus (setGeometry geom g)).

(** *** [Dialog.save] *)

Definition update_doc (d : nat) (f : QTextDocument → QTextDocument) (w : World)
  : option World :=
  hd ← docs w !! d;
  Some (mkWorld (<[d := f hd]> (docs w)) (cursors w) (dialog w)).

(** Modelled from the spec: [cursordiff.insert_text] is not part of the
    file; it "replaces range contents with new text" and leaves the cursor
    at the end of the inserted text. *)
Definition insert_text_result (t : text) (c : QTextCursor) (new : text) : text :=
  take (selectionStart c) t ++ new ++ drop (selectionEnd c) t.

Definition insert_text_cursor (c : QTextCursor) (new : text) : QTextCursor :=
  mkCursor (cursor_document c)
           (selectionStart c + length new) (selectionStart c + length new).

(** Modelled from the spec: [cursortools.compress_undo] is not part of the
    file; it is the "scoped acquisition that batches all document mutations
    performed within it into one undo step", here the edit block opened by
    [beginEditBlock] and closed by [endEditBlock].

    Only the cursor local to [save] is followed through the changes of the
    text. *)
Definition Dialog_save (w : World) : option World :=
  r ← _range (dialog w);
  '(w, cursor) ← QTextCursor_copy r w;
  c ← cursors w !! cursor;
  let start := selectionStart c in
  let d := cursor_document c in
  w ← update_doc d beginEditBlock w;
  hd ← docs w !! d;
  let new := view_text (view (dialog w)) in
  w ← update_doc d (modify (insert_text_result (doc_text hd) c new)) w;
  w ← update_cursor cursor (λ c, insert_text_cursor c new) w;
  hd ← docs w !! d;
  w ← update_cursor cursor (setPosition (doc_text hd) start KeepAnchor) w;
  c ← cursors w !! cursor;
  w ← update_doc d (modify (re_indent (doc_text hd) (anchor c) (position c))) w;
  update_doc d endEditBlock w.

(** *** Accepting and rejecting *)

(** [QDialog.done]: the dialog is hidden, the result is set, and
    [accepted] or [rejected] is emitted; [__init__] connects [accepted]
    to [save]. *)
Definition Dialog_reject (w : World) : World :=
  set_dialog (hide_with_result Rejected) w.

Definition Dialog_accept (w : World) : option World :=
  Dialog_save (set_dialog (hide_with_result Accepted) w).

(** A host document emits [closed]: every connection of the signal to
    [reject] is served. *)
Definition emit_closed (d : nat) (w : World) : option World :=
  hd ← docs w !! d;
  Some (Nat.iter (closed_receivers hd) Dialog_reject w).

(** *** Values named in the statements *)

(** The cursor [edit] leaves behind as the tracked range of the line [L]
    that follows [pre]: from the end of the indentation to the end of the
    line. *)
Definition tracked_range (d : nat) (pre L : text) : QTextCursor :=
  mkCursor d (length pre + length (takeWhile is_indent L))
           (length pre + length L).

(** The message for that line. *)
Definition editing_message (hd : QTextDocument) (pre L : text) (d : nat) : text :=
  format (gettext editing_template)
    (message_kw (str_of_nat (count_newlines pre + 1)) (documentName hd)
       (or_else (get_definition (doc_text hd) (tracked_range d pre L))
                (gettext (lit "<unknown>")))).

(** [Dialog.__init__]: no host document yet. *)
Definition Dialog_init (v : View) (geom : QRect) : Dialog :=
  mkDialog None None v None false (lit "<no document set>") geom false None.

End Dialog.

Arguments mkDialog {LexState}.
Arguments mkWorld {LexState}.
Arguments _document {LexState}.
Arguments _range {LexState}.
Arguments view {LexState}.
Arguments hl_initial_state {LexState}.
Arguments hl_highlighting {LexState}.
Arguments message {LexState}.
Arguments geometry {LexState}.
Arguments visible {LexState}.
Arguments result {LexState}.
Arguments docs {LexState}.
Arguments cursors {LexState}.
Arguments dialog {LexState}.
Arguments Dialog_popup {LexState}.
Arguments Dialog_reject {LexState}.
Arguments emit_closed {LexState}.
Arguments Dialog_init {LexState}.

Arguments track_document {LexState}.
Arguments connect_closed {LexState}.
Arguments disconnect_closed {LexState}.
Arguments set_dialog {LexState}.
Arguments set_document {LexState}.

(** ** Predicates used in the statements *)

(** A document without its signal connections. *)
Definition doc_content (d : QTextDocument) : QTextDocument :=
  set_closed_receivers 0 d.

(** [edit] can run: the host document the dialog tracks, if any, is there
    and has its [closed] signal connected to the dialog. *)
Definition edit_ready {LexState} (w : World LexState) : Prop :=
  match _document (dialog w) with
  | None => True
  | Some d0 => ∃ hd0, docs w !! d0 = Some hd0 ∧ 0 < closed_receivers hd0
  end.

(** The dialog is connected to the [closed] signal of the host document it
    tracks, once, and to no other. *)
Definition connected_once {LexState} (w : World LexState) : Prop :=
  (∀ d hd, docs w !! d = Some hd →
           closed_receivers hd
           = if bool_decide (_document (dialog w) = Some d) then 1 else 0)
  ∧ (∀ d, _document (dialog w) = Some d → is_Some (docs w !! d)).

(** [s] occurs in [m]. *)
Definition contains (s m : text) : Prop := ∃ a b, m = a ++ s ++ b.

(** Whether a template has the replacement field [f]. *)
Definition is_field (f : text) (s : segment) : bool :=
  match s with
  | Field n => bool_decide (n = f)
  | Lit _ => false
  end.

Definition has_field (f : text) (template : text) : bool :=
  existsb (is_field f) (parse_template template None).

(** ** A small world to run the dialog in *)

Definition example_is_indent (c : ascii) : bool :=
  Ascii.eqb c " "%char || Ascii.eqb c "009"%char.

Definition example_text : text :=
  lit "a" ++ [newline] ++ lit "  bc" ++ [newline] ++ lit "d".

Definition example_doc : QTextDocument :=
  mkDocument example_text (lit "score.ly") true [] 0 false 0.

Definition example_doc2 : QTextDocument :=
  mkDocument (lit "xy") (lit "part.ly") false [] 0 false 0.

Definition example_lexer_state_at (t : text) (pos : nat) : nat := pos.

Definition example_get_definition (t : text) (c : QTextCursor) : option text :=
  None.

Definition example_gettext (s : text) : text := s.

Definition example_re_indent (t : text) (a p : nat) : text := t.

(** Two host documents, a cursor in each, and a dialog fresh from
    [__init__]. *)
Definition example_world : World nat :=
  mkWorld (<[0 := example_doc]> (<[1 := example_doc2]> ∅))
          [mkCursor 0 5 5; mkCursor 1 1 1]
          (Dialog_init (mkView [] 0 0 false) (mkRect 0 0 99 49)).

Definition example_edit : nat → World nat → option (World nat) :=
  Dialog_edit example_is_indent nat example_lexer_state_at
              example_get_definition example_gettext.




Definition example_world1 : World nat :=
  default example_world (example_edit 0 example_world).

(** Events for the view: a key combination that matches the standard key,
    and a letter that the plain-text surface inserts at the end. *)
Inductive example_event := ShiftReturn | LetterA.

Definition example_matches (ev : example_event) (k : unit) : bool :=
  match ev with ShiftReturn => true | LetterA => false end.

Definition example_base_event (v : View) (ev : example_event) : View * bool :=
  match ev with
  | ShiftReturn =>
      (mkView (view_text v ++ [newline]) (view_anchor v) (view_position v)
              (view_focus v), true)
  | LetterA =>
      (mkView (view_text v ++ lit "a") (view_anchor v) (view_position v)
              (view_focus v), true)
  end.

(** ** The callers of the dialog *)

Section Callers.

Variable is_indent : ascii → bool.
Variable LexState : Type.
Variable lexer_state_at : text → nat → LexState.
Variable re_indent : text → nat → nat → text.
Variable get_definition : text → QTextCursor → option text.
Variable gettext : text → text.

(** [popup] as the entry function calls it, with the [position] it was
    given or [None]: without a position, [geom.moveCenter(position)] and
    [position.y()] raise before the geometry is set. *)
Definition Dialog_popup_opt (position : option QPoint) (w : World LexState)
  : option (World LexState) :=
  p ← position;
  Some (set_dialog (Dialog_popup p) w).

(** The module function [edit(parent, cursor, position=None)]: a new dialog
    is made, which is connected to no document yet; then [edit] and
    [popup] run on it.  [view] and [geom] are the view and the geometry the
    new dialog starts with.  (That the dialog deletes itself when finished
    is outside the store.) *)
Definition edit_entry (v : View) (geom : QRect) (cursor : nat)
    (position : option QPoint) (w : World LexState) : option (World LexState) :=
  let w := mkWorld (set_closed_receivers 0 <$> docs w) (cursors w)
                   (Dialog_init v geom) in
  w ← Dialog_edit is_indent LexState lexer_state_at get_definition gettext cursor w;
  Dialog_popup_opt position w.

(** Several calls of [Dialog.edit] on one dialog, one after the other. *)
Fixpoint Dialog_edits (cs : list nat) (w : World LexState)
  : option (World LexState) :=
  match cs with
  | [] => Some w
  | c :: r =>
      w' ← Dialog_edit is_indent LexState lexer_state_at get_definition gettext c w;
      Dialog_edits r w'
  end.

End Callers.

Arguments Dialog_popup_opt {LexState}.

(** A cursor of the store that points into a document of the store. *)
Definition valid_cursor {LexState} (w : World LexState) (c : nat) : Prop :=
  ∃ cur hd, cursors w !! c = Some cur
    ∧ docs w !! cursor_document cur = Some hd
    ∧ position cur ≤ length (doc_text hd).

(** The user replaces the text of the scratch document; [new] is the text
    as [toPlainText] reports it. *)
Definition typed (new : text) (v : View) : View :=
  mkView new (length new) (length new) (view_focus v).

Section ViewEvents.

Variable QEvent : Type.
Variable StandardKey : Type.
Variable InsertLineSeparator : StandardKey.
Variable event_matches : QEvent → StandardKey → bool.
Variable QPlainTextEdit_event : View → QEvent → View * bool.

(** The events of a list delivered to [View.event] in turn. *)
Fixpoint View_events (v : View) (evs : list QEvent) : View :=
  match evs with
  | [] => v
  | ev :: r =>
      View_events
        (fst (View_event QEvent StandardKey InsertLineSeparator event_matches
                         QPlainTextEdit_event v ev)) r
  end.

(** The same events delivered to the plain-text surface itself. *)
Fixpoint QPlainTextEdit_events (v : View) (evs : list QEvent) : View :=
  match evs with
  | [] => v
  | ev :: r => QPlainTextEdit_events (fst (QPlainTextEdit_event v ev)) r
  end.

End ViewEvents.

(** One step of a run in the option monad. *)
Ltac step := cbn [mbind option_bind docs cursors dialog].

(** * Properties *)

(** ** Lines of a document *)

Lemma takeWhile_all {A} (f : A → bool) l r :
  forallb f l = true → (r = [] ∨ ∃ x r', r = x :: r' ∧ f x = false) →
  takeWhile f (l ++ r) = l.
Proof.
  intros Hl Hr. induction l as [|a l IH]; simpl in *.
  - destruct Hr as [->|(x & r' & -> & Hx)]; simpl; [done|by rewrite Hx].
  - apply andb_prop in Hl as [Ha Hl]. rewrite Ha. f_equal. by apply IH.
Qed.

Lemma forallb_take {A} (f : A → bool) l n :
  forallb f l = true → forallb f (take n l) = true.
Proof.
  revert n. induction l as [|a l IH]; intros [|n] H; simpl in *; try done.
  apply andb_prop in H as [-> H]. simpl. by apply IH.
Qed.

Lemma forallb_drop {A} (f : A → bool) l n :
  forallb f l = true → forallb f (drop n l) = true.
Proof.
  revert n. induction l as [|a l IH]; intros [|n] H; simpl in *; try done.
  apply andb_prop in H as [_ H]. by apply IH.
Qed.

Lemma forallb_reverse {A} (f : A → bool) l :
  forallb f l = true → forallb f (reverse l) = true.
Proof.
  induction l as [|a l IH]; simpl; [done|]. intros H.
  apply andb_prop in H as [Ha H]. rewrite reverse_cons, forallb_app.
  simpl. by rewrite IH, Ha.
Qed.

Lemma takeWhile_dropWhile {A} (f : A → bool) l :
  takeWhile f l ++ dropWhile f l = l.
Proof. induction l as [|a l IH]; simpl; [done|]. destruct (f a); simpl; congruence. Qed.

Lemma dropWhile_drop {A} (f : A → bool) l :
  dropWhile f l = drop (length (takeWhile f l)) l.
Proof. induction l as [|a l IH]; simpl; [done|]. by destruct (f a). Qed.

Lemma length_takeWhile {A} (f : A → bool) l : length (takeWhile f l) ≤ length l.
Proof. induction l as [|a l IH]; simpl; [lia|]. destruct (f a); simpl; lia. Qed.

(** ** Plain text *)

Lemma length_toPlainText t : length (toPlainText t) = length t.
Proof. apply length_map. Qed.

Lemma toPlainText_take n t : take n (toPlainText t) = toPlainText (take n t).
Proof. apply firstn_map. Qed.

Lemma toPlainText_drop n t : drop n (toPlainText t) = toPlainText (drop n t).
Proof. apply skipn_map. Qed.

Lemma plain_char_idem c : plain_char (plain_char c) = plain_char c.
Proof.
  unfold plain_char. destruct (Ascii.eqb c nbsp) eqn:E; [done|]. by rewrite E.
Qed.


Lemma toPlainText_idem t : toPlainText (toPlainText t) = toPlainText t.
Proof.
  unfold toPlainText. induction t as [|c t IH]; simpl; [done|].
  by rewrite plain_char_idem, IH.
Qed.

Section Lines.

Context {t pre L post : text} (Hline : is_line t pre L post).
Context {p : nat} (Hp : p ≤ length L).

Lemma line_block_before : block_before t (length pre + p) = take p L.
Proof.
  destruct Hline as (-> & Hpre & HL & _). unfold block_before.
  rewrite take_app_add, take_app_le by done.
  rewrite reverse_app, takeWhile_all, reverse_involutive; [done| |].
  - by apply forallb_reverse, forallb_take.
  - destruct Hpre as [->|[pre' ->]]; [by left|right].
    rewrite reverse_snoc. by eexists _, _.
Qed.

Lemma line_block_after : block_after t (length pre + p) = drop p L.
Proof.
  destruct Hline as (-> & _ & HL & Hpost). unfold block_after.
  rewrite drop_app_add, drop_app_le by done.
  rewrite takeWhile_all; [done|by apply forallb_drop|].
  destruct Hpost as [->|[post' ->]]; [by left|right]. by eexists _, _.
Qed.

Lemma line_block_position : block_position t (length pre + p) = length pre.
Proof.
  unfold block_position. rewrite line_block_before, length_take. lia.
Qed.

Lemma line_block_end : block_end t (length pre + p) = length pre + length L.
Proof.
  unfold block_end. rewrite line_block_after, length_drop. lia.
Qed.

Lemma line_block_text : block_text t (length pre + p) = L.
Proof.
  unfold block_text. rewrite line_block_before, line_block_after.
  apply take_drop.
Qed.

End Lines.

Lemma line_length t pre L post :
  is_line t pre L post → length t = length pre + length L + length post.
Proof. intros (-> & _). rewrite !length_app. lia. Qed.

(** ** Connections to the [closed] signal *)

Lemma doc_content_set_closed_receivers n hd :
  doc_content (set_closed_receivers n hd) = doc_content hd.
Proof. done. Qed.

Lemma set_closed_receivers_twice n m hd :
  set_closed_receivers n (set_closed_receivers m hd) = set_closed_receivers n hd.
Proof. done. Qed.

Lemma connected_once_ready {LexState} (w : World LexState) :
  connected_once w → edit_ready w.
Proof.
  intros [Hn Hd]. unfold edit_ready.
  destruct (_document (dialog w)) as [d0|] eqn:E; [|done].
  destruct (Hd d0 eq_refl) as [hd0 Hhd0]. exists hd0. split; [done|].
  rewrite (Hn _ _ Hhd0), bool_decide_eq_true_2; [lia|done].
Qed.

Lemma track_document_spec {LexState} (w : World LexState) d hd :
  edit_ready w → docs w !! d = Some hd →
  ∃ w1 n, track_document d w = Some w1
    ∧ cursors w1 = cursors w
    ∧ dialog w1 = set_document (Some d) (dialog w)
    ∧ docs w1 !! d = Some (set_closed_receivers n hd)
    ∧ ∀ x, doc_content <$> docs w1 !! x = doc_content <$> docs w !! x.
Proof.
  intros Hready Hd. unfold track_document, edit_ready in *.
  destruct (_document (dialog w)) as [d0|] eqn:E; simpl.
  - destruct Hready as (hd0 & Hd0 & Hpos). unfold disconnect_closed.
    rewrite Hd0. simpl. destruct (closed_receivers hd0) as [|n0] eqn:En; [lia|].
    simpl. unfold connect_closed. simpl.
    destruct (decide (d0 = d)) as [->|Hne].
    + rewrite lookup_insert_eq. simpl. eexists _, _. split; [done|]. simpl.
      repeat split; [by rewrite lookup_insert_eq; simplify_eq|].
      intros x. destruct (decide (d = x)) as [->|Hx].
      * rewrite lookup_insert_eq, Hd0. done.
      * by rewrite !lookup_insert_ne.
    + rewrite lookup_insert_ne, Hd by done. simpl. eexists _, _. split; [done|].
      simpl. repeat split; [by rewrite lookup_insert_eq|].
      intros x. destruct (decide (d = x)) as [->|Hx].
      * rewrite lookup_insert_eq, Hd. done.
      * rewrite lookup_insert_ne by done. destruct (decide (d0 = x)) as [->|Hx0].
        -- by rewrite lookup_insert_eq, Hd0.
        -- by rewrite lookup_insert_ne.
  - unfold connect_closed. simpl. rewrite Hd. simpl. eexists _, _. split; [done|].
    simpl. repeat split; [by rewrite lookup_insert_eq|].
    intros x. destruct (decide (d = x)) as [->|Hx].
    + by rewrite lookup_insert_eq, Hd.
    + by rewrite lookup_insert_ne.
Qed.

(** ** Cursor objects *)

Lemma lookup_fresh {A} (l : list A) x : (l ++ [x]) !! length l = Some x.
Proof. by apply list_lookup_middle. Qed.

Lemma insert_fresh {A} (l : list A) x y : <[length l := y]> (l ++ [x]) = l ++ [y].
Proof. induction l as [|a l IH]; simpl; [done|]. by rewrite IH. Qed.

Lemma count_newlines_app a b :
  count_newlines (a ++ b) = count_newlines a + count_newlines b.
Proof. induction a as [|c a IH]; simpl; [done|]. rewrite IH. lia. Qed.

Lemma count_newlines_line L :
  forallb not_newline L = true → count_newlines L = 0.
Proof.
  induction L as [|c L IH]; simpl; [done|]. intros H.
  apply andb_prop in H as [Hc H]. unfold not_newline in Hc.
  destruct (is_newline c); [done|]. by apply IH.
Qed.

(** ** [Dialog.edit] in closed form *)

Section EditSpec.

Context (is_indent : ascii → bool).
Context {LexState : Type} (lexer_state_at : text → nat → LexState).
Context (get_definition : text → QTextCursor → option text).
Context (gettext : text → text).

Abbreviation edit := (Dialog_edit is_indent LexState lexer_state_at get_definition gettext).
Abbreviation tracked_range := (tracked_range is_indent).
Abbreviation editing_message := (editing_message is_indent get_definition gettext).

Lemma Dialog_edit_spec (w : World LexState) cursor cur hd pre L post p :
  edit_ready w →
  cursors w !! cursor = Some cur →
  docs w !! cursor_document cur = Some hd →
  is_line (doc_text hd) pre L post →
  position cur = length pre + p →
  p ≤ length L →
  ∃ w1 w',
    track_document (cursor_document cur) w = Some w1
    ∧ edit cursor w = Some w'
    ∧ docs w' = docs w1
    ∧ cursors w' = cursors w ++ [tracked_range (cursor_document cur) pre L]
    ∧ dialog w'
      = mkDialog (Some (cursor_document cur)) (Some (length (cursors w)))
          (let c := Z.to_nat (Z.max 0 (Z.of_nat p
                        - Z.of_nat (length (takeWhile is_indent L)))) in
           mkView (toPlainText (dropWhile is_indent L)) c c
                  (view_focus (view (dialog w))))
          (Some (lexer_state_at (doc_text hd) (length pre)))
          (info_highlighting hd)
          (editing_message hd pre L (cursor_document cur))
          (geometry (dialog w)) (visible (dialog w)) (result (dialog w)).
Proof.
  intros Hready Hcur Hd Hline Hpos Hp.
  destruct (track_document_spec w _ hd Hready Hd)
    as (w1 & n & Htrack & Hcs & Hdlg & Hd1 & _).
  exists w1. unfold Dialog_edit. rewrite Hcur. simpl. rewrite Htrack. simpl.
  rewrite Hd1. simpl.
  set (d := cursor_document cur) in *.
  set (t := doc_text hd) in *.
  set (k := length (takeWhile is_indent L)).
  assert (Hk : k ≤ length L) by apply length_takeWhile.
  assert (Hlen := line_length _ _ _ _ Hline).
  unfold QTextCursor_copy. rewrite Hcs, Hcur. simpl.
  rewrite lookup_fresh. simpl.
  unfold update_cursor. simpl. rewrite lookup_fresh. simpl.
  rewrite insert_fresh, lookup_fresh. simpl.
  rewrite insert_fresh, lookup_fresh. simpl.
  rewrite (lookup_app_l_Some _ _ _ _ Hcur). simpl.
  (* the cursor after strip_indent *)
  assert (Hs : strip_indent is_indent t cur = mkCursor d (length pre + k) (length pre + k)).
  { unfold strip_indent, setPosition. rewrite Hpos.
    rewrite (line_block_position Hline Hp), (line_block_text Hline Hp).
    fold k. rewrite (proj2 (Nat.leb_le _ _)) by lia. done. }
  rewrite Hs. simpl.
  (* the cursor after the move to the end of the block *)
  assert (He : movePosition_EndOfBlock t KeepAnchor
                 (mkCursor d (length pre + k) (length pre + k))
               = tracked_range d pre L).
  { unfold movePosition_EndOfBlock, setPosition. simpl.
    rewrite (line_block_end Hline Hk).
    rewrite (proj2 (Nat.leb_le _ _)) by lia. done. }
  rewrite He. simpl. fold k.
  (* the selected text *)
  assert (Hsel : selected_text t (length pre + k) (length pre + length L)
                 = toPlainText (dropWhile is_indent L)).
  { unfold selected_text. rewrite Nat.min_l, Nat.max_r by lia.
    destruct Hline as (Ht & _). fold t in Ht. rewrite Ht.
    rewrite drop_app_add, drop_app_le by done.
    rewrite take_app_length' by (rewrite length_drop; lia).
    by rewrite dropWhile_drop. }
  rewrite Hsel.
  rewrite Hpos, (line_block_position Hline Hp), (line_block_position Hline Hk).
  replace (Z.of_nat (length pre + p) - Z.of_nat (length pre)
           - (Z.of_nat (length pre + k) - Z.of_nat (length pre)))%Z
    with (Z.of_nat p - Z.of_nat k)%Z by lia.
  unfold updateMessage. simpl. rewrite Hdlg. simpl. rewrite Hd1. simpl.
  rewrite lookup_fresh. simpl.
  eexists. split; [done|]. split; [reflexivity|]. simpl.
  split; [done|]. split; [done|].
  unfold view_setCursorPosition, setPlainText, setMessage, set_view,
    setHighlighting, setInitialState, set_range, set_document. simpl.
  rewrite (proj2 (Nat.leb_le _ _)).
  2:{ rewrite length_toPlainText, dropWhile_drop, length_drop. fold k. lia. }
  simpl. f_equal.
  - unfold tokeniter_state. rewrite Hpos.
    by rewrite (line_block_position Hline Hp).
  - unfold editing_message. do 3 f_equal. unfold block_number.
    destruct Hline as (Ht & _ & HL & _). fold t. rewrite Ht.
    rewrite app_assoc, take_app_length' by (rewrite length_app; lia).
    by rewrite count_newlines_app, (count_newlines_line L HL), Nat.add_0_r.
Qed.

End EditSpec.

(** ** Every position of a text lies on a line *)

Lemma forallb_takeWhile {A} (f : A → bool) l : forallb f (takeWhile f l) = true.
Proof.
  induction l as [|a l IH]; simpl; [done|].
  destruct (f a) eqn:E; simpl; [by rewrite E|done].
Qed.

Lemma dropWhile_head {A} (f : A → bool) l :
  dropWhile f l = [] ∨ ∃ x r, dropWhile f l = x :: r ∧ f x = false.
Proof.
  induction l as [|a l IH]; simpl; [by left|].
  destruct (f a) eqn:E; [done|]. right. by eexists _, _.
Qed.

Lemma not_newline_false c : not_newline c = false → c = newline.
Proof.
  unfold not_newline, is_newline. intros H.
  apply negb_false_iff in H. by apply Ascii.eqb_eq.
Qed.

Lemma line_exists t pos :
  pos ≤ length t →
  ∃ pre L post p, is_line t pre L post ∧ pos = length pre + p ∧ p ≤ length L.
Proof.
  intros Hpos.
  set (A := takeWhile not_newline (reverse (take pos t))).
  set (B := dropWhile not_newline (reverse (take pos t))).
  set (C := takeWhile not_newline (drop pos t)).
  set (D := dropWhile not_newline (drop pos t)).
  assert (HAB : take pos t = reverse B ++ reverse A).
  { rewrite <- reverse_app. unfold A, B.
    by rewrite takeWhile_dropWhile, reverse_involutive. }
  assert (HCD : drop pos t = C ++ D) by (symmetry; apply takeWhile_dropWhile).
  exists (reverse B), (reverse A ++ C), D, (length (reverse A)).
  split; [split; [|split; [|split]]|split].
  - rewrite <- (take_drop pos t) at 1. rewrite HAB, HCD.
    by rewrite <- !app_assoc.
  - destruct (dropWhile_head not_newline (reverse (take pos t)))
      as [E|(x & r & E & Hx)]; fold B in E; rewrite E.
    + by left.
    + right. exists (reverse r). rewrite reverse_cons.
      by rewrite (not_newline_false _ Hx).
  - rewrite forallb_app. apply andb_true_intro. split.
    + apply forallb_reverse, forallb_takeWhile.
    + apply forallb_takeWhile.
  - destruct (dropWhile_head not_newline (drop pos t))
      as [E|(x & r & E & Hx)]; fold D in E; rewrite E.
    + by left.
    + right. exists r. by rewrite (not_newline_false _ Hx).
  - rewrite <- length_app, <- HAB, length_take. lia.
  - rewrite length_app. lia.
Qed.

(** ** More on the connections *)

Lemma iter_reject {LexState} n (w : World LexState) :
  Nat.iter (S n) Dialog_reject w = Dialog_reject w.
Proof. induction n as [|n IH]; [done|]. simpl in *. by rewrite IH. Qed.

Lemma track_document_receivers {LexState} (w w1 : World LexState) d :
  track_document d w = Some w1 →
  ∃ hd1, docs w1 !! d = Some hd1 ∧ 0 < closed_receivers hd1.
Proof.
  unfold track_document. intros H.
  destruct (match _document (dialog w) with
            | Some d0 => disconnect_closed d0 w
            | None => Some w
            end) as [w0|]; simpl in H; [|done].
  unfold connect_closed in H. simpl in H.
  destruct (docs w0 !! d) as [hd0|]; simpl in H; [|done].
  injection H as <-. simpl. rewrite lookup_insert_eq.
  eexists. split; [done|]. simpl. lia.
Qed.

Lemma track_document_connected_once {LexState} (w w1 : World LexState) d :
  connected_once w → track_document d w = Some w1 → connected_once w1.
Proof.
  intros [Hn Hd]. unfold track_document.
  destruct (_document (dialog w)) as [d0|] eqn:E; simpl.
  - unfold disconnect_closed. destruct (docs w !! d0) as [hd0|] eqn:E0; [|done].
    simpl. pose proof (Hn _ _ E0) as Hc. rewrite bool_decide_eq_true_2 in Hc by done.
    rewrite Hc. simpl. unfold connect_closed. simpl.
    destruct (decide (d0 = d)) as [->|Hne].
    + rewrite lookup_insert_eq. simpl. intros [= <-]. split; simpl.
      * intros x hx. rewrite insert_insert_eq.
        destruct (decide (d = x)) as [->|Hx].
        -- rewrite lookup_insert_eq. intros [= <-]. simpl.
           by rewrite bool_decide_eq_true_2.
        -- rewrite lookup_insert_ne by done. intros Hx'.
           rewrite (Hn _ _ Hx').
           by rewrite ?bool_decide_eq_false_2 by congruence.
      * intros x [= <-]. rewrite insert_insert_eq, lookup_insert_eq. by eexists.
    + rewrite lookup_insert_ne by done.
      destruct (docs w !! d) as [hd|] eqn:Ed; [|done]. simpl.
      intros [= <-]. split; simpl.
      * intros x hx. destruct (decide (d = x)) as [->|Hx].
        -- rewrite lookup_insert_eq. intros [= <-]. simpl.
           rewrite (Hn _ _ Ed).
           rewrite (bool_decide_eq_true_2 (Some x = Some x)) by done.
           by rewrite bool_decide_eq_false_2 by congruence.
        -- rewrite lookup_insert_ne by done.
           rewrite (bool_decide_eq_false_2 (Some d = Some x)) by congruence.
           destruct (decide (d0 = x)) as [->|Hx0].
           ++ rewrite lookup_insert_eq. by intros [= <-].
           ++ rewrite lookup_insert_ne by done. intros Hx'.
              rewrite (Hn _ _ Hx'). by rewrite ?bool_decide_eq_false_2 by congruence.
      * intros x [= <-]. rewrite lookup_insert_eq. by eexists.
  - unfold connect_closed. simpl. destruct (docs w !! d) as [hd|] eqn:Ed; [|done].
    simpl. intros [= <-]. split; simpl.
    + intros x hx. destruct (decide (d = x)) as [->|Hx].
      * rewrite lookup_insert_eq. intros [= <-]. simpl.
        pose proof (Hn _ _ Ed) as Hc.
        rewrite bool_decide_eq_false_2 in Hc by done.
        by rewrite Hc, bool_decide_eq_true_2.
      * rewrite lookup_insert_ne by done. intros Hx'.
        rewrite (Hn _ _ Hx').
        by rewrite ?bool_decide_eq_false_2 by congruence.
    + intros x [= <-]. rewrite lookup_insert_eq. by eexists.
Qed.

(** ** Undo steps *)

Lemma doc_text_modify new d : doc_text (modify new d) = new.
Proof.
  unfold modify, text_eqb. case_bool_decide as E; [done|].
  by destruct (_ || _).
Qed.

Lemma edit_block_one_step hd t1 t2 :
  editBlockDepth hd = 0 →
  let hd' := endEditBlock (modify t2 (modify t1 (beginEditBlock hd))) in
  doc_text hd' = t2
  ∧ editBlockDepth hd' = 0
  ∧ documentName hd' = documentName hd
  ∧ ((undoStack hd' = undoStack hd ∧ doc_text hd' = doc_text hd)
     ∨ undoStack hd' = doc_text hd :: undoStack hd).
Proof.
  intros H0. destruct hd as [t nm hl st dp gr cr]. simpl in *. subst dp.
  unfold modify, text_eqb, beginEditBlock, endEditBlock. simpl.
  case_bool_decide as E1; simpl; case_bool_decide as E2; simpl; subst;
    repeat split; auto.
Qed.

(** Outside an edit block the same two changes are two undo steps. *)
Lemma two_changes_without_block hd t1 t2 :
  editBlockDepth hd = 0 → t1 ≠ doc_text hd → t2 ≠ t1 →
  undoStack (modify t2 (modify t1 hd)) = t1 :: doc_text hd :: undoStack hd.
Proof.
  intros H0 H1 H2. destruct hd as [t nm hl st dp gr cr]. simpl in *. subst dp.
  unfold modify, text_eqb. simpl.
  rewrite (bool_decide_eq_false_2 (t1 = t)) by done. simpl.
  by rewrite (bool_decide_eq_false_2 (t2 = t1)) by done.
Qed.

(** ** Running the store operations *)

Lemma update_doc_Some {LexState} (w : World LexState) d f hd :
  docs w !! d = Some hd →
  update_doc LexState d f w
  = Some (mkWorld (<[d := f hd]> (docs w)) (cursors w) (dialog w)).
Proof. intros H. unfold update_doc. by rewrite H. Qed.

Lemma update_cursor_Some {LexState} (w : World LexState) r f c :
  cursors w !! r = Some c →
  update_cursor LexState r f w
  = Some (mkWorld (docs w) (<[r := f c]> (cursors w)) (dialog w)).
Proof. intros H. unfold update_cursor. by rewrite H. Qed.

(** ** [Dialog.save] in closed form *)

Section SaveSpec.

Context {LexState : Type} (re_indent : text → nat → nat → text).

Abbreviation save := (Dialog_save LexState re_indent).

Lemma Dialog_save_spec (w : World LexState) r c hd :
  _range (dialog w) = Some r →
  cursors w !! r = Some c →
  docs w !! cursor_document c = Some hd →
  anchor c ≤ length (doc_text hd) →
  position c ≤ length (doc_text hd) →
  let s := selectionStart c in
  let new := view_text (view (dialog w)) in
  let merged := take s (doc_text hd) ++ new ++ drop (selectionEnd c) (doc_text hd) in
  let final := re_indent merged (s + length new) s in
  save w
  = Some (mkWorld
            (<[cursor_document c :=
                 endEditBlock (modify final (modify merged (beginEditBlock hd)))]>
               (docs w))
            (cursors w ++ [mkCursor (cursor_document c) (s + length new) s])
            (dialog w)).
Proof.
  intros Hr Hc Hd Ha Hp s new merged final.
  unfold Dialog_save. rewrite Hr. step.
  unfold QTextCursor_copy. rewrite Hc. step. rewrite lookup_fresh. step.
  rewrite (update_doc_Some _ _ _ hd) by done. step.
  rewrite lookup_insert_eq. step.
  erewrite update_doc_Some by (cbn; apply lookup_insert_eq). step.
  rewrite insert_insert_eq.
  erewrite update_cursor_Some by (cbn; apply lookup_fresh). step.
  rewrite insert_fresh, lookup_insert_eq. step.
  erewrite update_cursor_Some by (cbn; apply lookup_fresh). step.
  rewrite insert_fresh, lookup_fresh. step.
  erewrite update_doc_Some by (cbn; apply lookup_insert_eq). step.
  rewrite insert_insert_eq.
  erewrite update_doc_Some by (cbn; apply lookup_insert_eq). step.
  rewrite insert_insert_eq.
  fold s new. unfold insert_text_result. fold s merged.
  rewrite doc_text_modify.
  assert (Hs : s ≤ length merged).
  { unfold merged. rewrite !length_app, length_take. unfold s, selectionStart. lia. }
  unfold setPosition, insert_text_cursor. cbn [anchor position cursor_document].
  rewrite !doc_text_modify. change (doc_text (beginEditBlock hd)) with (doc_text hd).
  fold merged. rewrite (proj2 (Nat.leb_le _ _)) by done. done.
Qed.

End SaveSpec.

(** * The claims *)

Section EditClaims.

Context (is_indent : ascii → bool).
Context {LexState : Type} (lexer_state_at : text → nat → LexState).
Context (get_definition : text → QTextCursor → option text).
Context (gettext : text → text).

Abbreviation edit := (Dialog_edit is_indent LexState lexer_state_at get_definition gettext).


(** C6: the state [edit] hands to the highlighter of the scratch document
    is the tokenizer state at the start of the extracted line. *)
Theorem edit_transfers_line_state (w : World LexState) cursor cur hd pre L post p :
  edit_ready w →
  cursors w !! cursor = Some cur →
  docs w !! cursor_document cur = Some hd →
  is_line (doc_text hd) pre L post →
  position cur = length pre + p →
  p ≤ length L →
  ∃ w', edit cursor w = Some w'
    ∧ view_text (view (dialog w')) = toPlainText (dropWhile is_indent L)
    ∧ hl_initial_state (dialog w')
      = Some (lexer_state_at (doc_text hd) (length pre)).
Proof.
  intros Hready Hcur Hd Hline Hpos Hp.
  destruct (Dialog_edit_spec is_indent lexer_state_at get_definition gettext
              w cursor cur hd pre L post p Hready Hcur Hd Hline Hpos Hp)
    as (w1 & w' & _ & Hedit & _ & _ & Hdlg).
  exists w'. split; [done|]. by rewrite Hdlg.
Qed.

(** C10: [edit] changes neither the content of any host document nor the
    cursor of the caller, nor any other cursor there was: it works on a
    copy. *)
Theorem edit_frame (w : World LexState) cursor cur hd :
  edit_ready w →
  cursors w !! cursor = Some cur →
  docs w !! cursor_document cur = Some hd →
  position cur ≤ length (doc_text hd) →
  ∃ w', edit cursor w = Some w'
    ∧ cursors w' !! cursor = Some cur
    ∧ (∀ r c, cursors w !! r = Some c → cursors w' !! r = Some c)
    ∧ (∀ x, doc_content <$> docs w' !! x = doc_content <$> docs w !! x).
Proof.
  intros Hready Hcur Hd Hle.
  destruct (line_exists _ _ Hle) as (pre & L & post & p & Hline & Hpos & Hp).
  destruct (Dialog_edit_spec is_indent lexer_state_at get_definition gettext
              w cursor cur hd pre L post p Hready Hcur Hd Hline Hpos Hp)
    as (w1 & w' & Htrack & Hedit & Hdocs & Hcs & _).
  destruct (track_document_spec w _ hd Hready Hd)
    as (w1' & n & Htrack' & _ & _ & _ & Hcontent).
  rewrite Htrack in Htrack'. injection Htrack' as <-.
  exists w'. split; [done|]. rewrite Hcs, Hdocs.
  split; [by apply lookup_app_l_Some|].
  split; [intros r c Hr; by apply lookup_app_l_Some|done].
Qed.

(** C3: when the host document is closed while the dialog is open, the
    dialog is rejected, and no document is changed: [save] does not
    run. *)
Theorem closed_host_rejects (w : World LexState) cursor cur hd pos :
  edit_ready w →
  cursors w !! cursor = Some cur →
  docs w !! cursor_document cur = Some hd →
  position cur ≤ length (doc_text hd) →
  ∃ w1 w3,
    edit cursor w = Some w1
    ∧ visible (Dialog_popup pos (dialog w1)) = true
    ∧ emit_closed (cursor_document cur) (set_dialog (Dialog_popup pos) w1) = Some w3
    ∧ result (dialog w3) = Some Rejected
    ∧ visible (dialog w3) = false
    ∧ docs w3 = docs w1
    ∧ cursors w3 = cursors w1
    ∧ (∀ x, doc_content <$> docs w3 !! x = doc_content <$> docs w !! x).
Proof.
  intros Hready Hcur Hd Hle.
  destruct (line_exists _ _ Hle) as (pre & L & post & p & Hline & Hpos & Hp).
  destruct (Dialog_edit_spec is_indent lexer_state_at get_definition gettext
              w cursor cur hd pre L post p Hready Hcur Hd Hline Hpos Hp)
    as (w1 & w' & Htrack & Hedit & Hdocs & Hcs & _).
  destruct (track_document_spec w _ hd Hready Hd)
    as (w1' & n & Htrack' & _ & _ & _ & Hcontent).
  rewrite Htrack in Htrack'. injection Htrack' as <-.
  destruct (track_document_receivers _ _ _ Htrack) as (hd1 & Hd1 & Hpos1).
  exists w'. eexists. split; [done|]. split; [done|].
  unfold emit_closed. cbn [docs set_dialog]. rewrite Hdocs, Hd1. cbn [mbind option_bind].
  destruct (closed_receivers hd1) as [|m]; [lia|]. rewrite iter_reject.
  split; [done|]. cbn. rewrite Hdocs. done.
Qed.

End EditClaims.

Lemma connected_once_ext {LexState} (w w' : World LexState) :
  docs w' = docs w → _document (dialog w') = _document (dialog w) →
  connected_once w → connected_once w'.
Proof. unfold connected_once. intros -> ->. done. Qed.

Lemma is_Some_content (m m' : gmap nat QTextDocument) x :
  doc_content <$> m' !! x = doc_content <$> m !! x →
  is_Some (m !! x) → is_Some (m' !! x).
Proof.
  intros H [h Hh]. rewrite Hh in H. destruct (m' !! x); [by eexists|done].
Qed.

Section SecondEdit.

Context (is_indent : ascii → bool).
Context {LexState : Type} (lexer_state_at : text → nat → LexState).
Context (get_definition : text → QTextCursor → option text).
Context (gettext : text → text).

Abbreviation edit := (Dialog_edit is_indent LexState lexer_state_at get_definition gettext).

Lemma edit_connected_once (w : World LexState) cursor cur hd :
  connected_once w →
  cursors w !! cursor = Some cur →
  docs w !! cursor_document cur = Some hd →
  position cur ≤ length (doc_text hd) →
  ∃ w', edit cursor w = Some w'
    ∧ connected_once w'
    ∧ _document (dialog w') = Some (cursor_document cur)
    ∧ _range (dialog w') = Some (length (cursors w))
    ∧ visible (dialog w') = visible (dialog w)
    ∧ result (dialog w') = result (dialog w)
    ∧ (∀ x, doc_content <$> docs w' !! x = doc_content <$> docs w !! x).
Proof.
  intros Hconn Hcur Hd Hle.
  pose proof (connected_once_ready _ Hconn) as Hready.
  destruct (line_exists _ _ Hle) as (pre & L & post & p & Hline & Hpos & Hp).
  destruct (Dialog_edit_spec is_indent lexer_state_at get_definition gettext
              w cursor cur hd pre L post p Hready Hcur Hd Hline Hpos Hp)
    as (w1 & w' & Htrack & Hedit & Hdocs & Hcs & Hdlg).
  destruct (track_document_spec w _ hd Hready Hd)
    as (w1' & n & Htrack' & _ & Hdlg1 & _ & Hcontent).
  rewrite Htrack in Htrack'. injection Htrack' as <-.
  exists w'. split; [done|]. split.
  - apply (connected_once_ext w1); [done| |].
    + by rewrite Hdlg, Hdlg1.
    + by apply (track_document_connected_once w w1 (cursor_document cur)).
  - rewrite Hdlg, Hdocs. by cbn.
Qed.

(** C4: the dialog tracks one host document at a time.  A second [edit],
    for a cursor of another document, disconnects the dialog from the
    [closed] signal of the first document and connects it to that of the
    second; closing the first document then leaves the dialog as it
    is. *)
Theorem second_edit_retargets (w w1 : World LexState)
    c1 cur1 hd1 c2 cur2 hd2 pos :
  connected_once w →
  cursors w !! c1 = Some cur1 →
  docs w !! cursor_document cur1 = Some hd1 →
  position cur1 ≤ length (doc_text hd1) →
  edit c1 w = Some w1 →
  cursors w1 !! c2 = Some cur2 →
  docs w1 !! cursor_document cur2 = Some hd2 →
  position cur2 ≤ length (doc_text hd2) →
  cursor_document cur1 ≠ cursor_document cur2 →
  ∃ w2 h1 h2,
    edit c2 w1 = Some w2
    ∧ _document (dialog w2) = Some (cursor_document cur2)
    ∧ _range (dialog w2) = Some (length (cursors w1))
    ∧ docs w2 !! cursor_document cur1 = Some h1 ∧ closed_receivers h1 = 0
    ∧ docs w2 !! cursor_document cur2 = Some h2 ∧ closed_receivers h2 = 1
    ∧ emit_closed (cursor_document cur1) (set_dialog (Dialog_popup pos) w2)
      = Some (set_dialog (Dialog_popup pos) w2)
    ∧ visible (Dialog_popup pos (dialog w2)) = true
    ∧ result (Dialog_popup pos (dialog w2)) = result (dialog w).
Proof.
  intros Hconn Hc1 Hd1 Hle1 Hedit1 Hc2 Hd2 Hle2 Hne.
  destruct (edit_connected_once w c1 cur1 hd1 Hconn Hc1 Hd1 Hle1)
    as (w1' & Hedit1' & Hconn1 & _ & _ & _ & Hres1 & Hcont1).
  rewrite Hedit1 in Hedit1'. injection Hedit1' as <-.
  destruct (edit_connected_once w1 c2 cur2 hd2 Hconn1 Hc2 Hd2 Hle2)
    as (w2 & Hedit2 & Hconn2 & Hdoc2 & Hrange2 & _ & Hres2 & Hcont2).
  assert (H1 : is_Some (docs w2 !! cursor_document cur1)).
  { apply (is_Some_content (docs w1)); [done|].
    apply (is_Some_content (docs w)); [done|by eexists]. }
  assert (H2 : is_Some (docs w2 !! cursor_document cur2)).
  { apply (is_Some_content (docs w1)); [done|by eexists]. }
  destruct H1 as [h1 Hh1], H2 as [h2 Hh2].
  destruct Hconn2 as [Hn2 _].
  pose proof (Hn2 _ _ Hh1) as Hr1. pose proof (Hn2 _ _ Hh2) as Hr2.
  rewrite Hdoc2 in Hr1, Hr2.
  rewrite bool_decide_eq_false_2 in Hr1 by congruence.
  rewrite bool_decide_eq_true_2 in Hr2 by done.
  exists w2, h1, h2. repeat (split; [done|]).
  split; [|split; [done|]].
  - unfold emit_closed. cbn [docs set_dialog]. rewrite Hh1. cbn [mbind option_bind].
    by rewrite Hr1.
  - cbn. congruence.
Qed.

End SecondEdit.

Section SaveClaims.

Context (is_indent : ascii → bool).
Context {LexState : Type} (lexer_state_at : text → nat → LexState).
Context (re_indent : text → nat → nat → text).
Context (get_definition : text → QTextCursor → option text).
Context (gettext : text → text).

Abbreviation edit := (Dialog_edit is_indent LexState lexer_state_at get_definition gettext).
Abbreviation save := (Dialog_save LexState re_indent).


(** C8: [save] runs the merge of the edited text into the tracked range
    and the re-indentation of the span from the start of the range inside
    one edit block of the host document: however many changes they make,
    the document gains at most one undo step, and that step leads back to
    the text before [save]. *)
Theorem save_is_one_undo_step (w : World LexState) r c hd :
  _range (dialog w) = Some r →
  cursors w !! r = Some c →
  docs w !! cursor_document c = Some hd →
  anchor c ≤ length (doc_text hd) →
  position c ≤ length (doc_text hd) →
  editBlockDepth hd = 0 →
  let s := selectionStart c in
  let new := view_text (view (dialog w)) in
  let merged := take s (doc_text hd) ++ new ++ drop (selectionEnd c) (doc_text hd) in
  ∃ w' hd',
    save w = Some w'
    ∧ docs w' !! cursor_document c = Some hd'
    ∧ doc_text hd' = re_indent merged (s + length new) s
    ∧ editBlockDepth hd' = 0
    ∧ ((undoStack hd' = undoStack hd ∧ doc_text hd' = doc_text hd)
       ∨ (undoStack hd' = doc_text hd :: undoStack hd
          ∧ doc_text (undo hd') = doc_text hd
          ∧ undoStack (undo hd') = undoStack hd)).
Proof.
  intros Hr Hc Hd Ha Hp H0 s new merged.
  pose proof (Dialog_save_spec re_indent w r c hd Hr Hc Hd Ha Hp) as Hsave.
  cbv zeta in Hsave. fold s new merged in Hsave.
  destruct (edit_block_one_step hd merged
              (re_indent merged (s + length new) s) H0)
    as (Htext & Hdepth & _ & Hundo).
  eexists _, _. split; [exact Hsave|]. cbn [docs]. rewrite lookup_insert_eq.
  split; [done|]. split; [done|]. split; [done|].
  destruct Hundo as [Hsame|Hpush]; [by left|right].
  split; [done|]. unfold undo. rewrite Hpush. done.
Qed.

End SaveClaims.

(** ** The message *)

Lemma contains_concat (x : text) (l : list text) : In x l → contains x (concat l).
Proof.
  intros H. apply in_split in H as (l1 & l2 & ->).
  exists (concat l1), (concat l2). by rewrite concat_app.
Qed.

Lemma has_field_In f template :
  has_field f template = true → In (Field f) (parse_template template None).
Proof.
  unfold has_field. intros H. apply existsb_exists in H as (s & Hin & Hs).
  destruct s as [c|n]; [done|]. simpl in Hs.
  apply bool_decide_eq_true_1 in Hs. by subst.
Qed.

Lemma format_contains template kw f :
  has_field f template = true → contains (kw f) (format template kw).
Proof.
  intros H. apply has_field_In in H. unfold format.
  apply contains_concat. change (kw f) with (render kw (Field f)).
  by apply in_map.
Qed.

Section MessageClaim.

Context {LexState : Type}.
Context (get_definition : text → QTextCursor → option text).
Context (gettext : text → text).

(** C7: with a host document set, [updateMessage] sets a message that
    contains the line number of the tracked range counted from one (its
    block number plus one), the name of the host document, and the
    definition found for the tracked range or, without one, the
    placeholder for an unknown definition.  The translation of the
    message template is taken to keep the three fields. *)
Theorem updateMessage_contents (w : World LexState) d hd r c :
  _document (dialog w) = Some d →
  docs w !! d = Some hd →
  _range (dialog w) = Some r →
  cursors w !! r = Some c →
  has_field (lit "linenum") (gettext editing_template) = true →
  has_field (lit "document") (gettext editing_template) = true →
  has_field (lit "variable") (gettext editing_template) = true →
  ∃ w', updateMessage LexState get_definition gettext w = Some w'
    ∧ contains (str_of_nat (block_number (doc_text hd) (position c) + 1))
               (message (dialog w'))
    ∧ contains (documentName hd) (message (dialog w'))
    ∧ contains (match get_definition (doc_text hd) c with
                | Some (a :: l) => a :: l
                | _ => gettext (lit "<unknown>")
                end)
               (message (dialog w')).
Proof.
  intros Hdoc Hd Hr Hc Hl Hn Hv. unfold updateMessage.
  rewrite Hdoc, Hd. cbn [mbind option_bind]. rewrite Hr. cbn [mbind option_bind].
  rewrite Hc. cbn [mbind option_bind]. eexists. split; [done|].
  cbn [set_dialog dialog setMessage message].
  set (kw := message_kw _ _ _).
  split; [|split].
  - apply (format_contains _ kw (lit "linenum") Hl).
  - apply (format_contains _ kw (lit "document") Hn).
  - apply (format_contains _ kw (lit "variable") Hv).
Qed.

End MessageClaim.

(** ** The geometry *)

(** C5: [popup] centres the geometry of the dialog on the position, keeping
    its size; then, when the position is no lower than the height of the
    geometry plus 60, the top edge goes to 60 below the position, and
    otherwise the bottom edge goes to 60 above it. *)
Theorem popup_geometry {LexState} (g : Dialog LexState) (pos : QPoint) :
  let g0 := geometry g in
  let c := moveCenter pos g0 in
  let g' := geometry (Dialog_popup pos g) in
  (x1 c = px pos - Z.quot (x2 g0 - x1 g0) 2
   ∧ y1 c = py pos - Z.quot (y2 g0 - y1 g0) 2
   ∧ width c = width g0 ∧ height c = height g0)%Z
  ∧ (x1 g' = x1 c ∧ width g' = width g0 ∧ height g' = height g0)%Z
  ∧ (if (py pos <=? height g0 + 60)%Z
     then g' = moveTop (py pos + 60) c ∧ top g' = (py pos + 60)%Z
     else g' = moveBottom (py pos - 60) c ∧ bottom g' = (py pos - 60)%Z)
  ∧ visible (Dialog_popup pos g) = true
  ∧ view_focus (view (Dialog_popup pos g)) = true.
Proof.
  intros g0 c g'. subst g' c. unfold Dialog_popup. fold g0.
  assert (Hh : height (moveCenter pos g0) = height g0).
  { unfold height, moveCenter. simpl. lia. }
  rewrite Hh. unfold width, height, top, bottom in *.
  destruct (py pos <=? y2 g0 - y1 g0 + 1 + 60)%Z; simpl; repeat split; lia.
Qed.

(** ** The view *)

Section ViewClaim.

Context {QEvent StandardKey : Type}.
Context (InsertLineSeparator : StandardKey).
Context (event_matches : QEvent → StandardKey → bool).
Context (QPlainTextEdit_event : View → QEvent → View * bool).

(** C9: for an event that equals the key combination of
    [InsertLineSeparator], [View.event] returns [False] and leaves the
    scratch document as it is; every other event goes to the plain-text
    surface. *)
Theorem View_event_line_separator (v : View) (ev : QEvent) :
  if event_matches ev InsertLineSeparator
  then View_event QEvent StandardKey InsertLineSeparator event_matches
                  QPlainTextEdit_event v ev = (v, false)
  else View_event QEvent StandardKey InsertLineSeparator event_matches
                  QPlainTextEdit_event v ev = QPlainTextEdit_event v ev.
Proof. unfold View_event. by destruct (event_matches ev InsertLineSeparator). Qed.

End ViewClaim.

(** * The claims at work in the small world *)

Lemma example_is_line :
  is_line example_text (lit "a" ++ [newline]) (lit "  bc") ([newline] ++ lit "d").
Proof.
  split; [reflexivity|]. split; [right; by exists (lit "a")|].
  split; [reflexivity|]. right. by exists (lit "d").
Qed.

Lemma example_connected_once : connected_once example_world.
Proof.
  split.
  - intros d hd H. unfold example_world in H. cbn [docs] in H.
    apply lookup_insert_Some in H as [[<- <-]|[_ H]]; [reflexivity|].
    apply lookup_insert_Some in H as [[<- <-]|[_ H]]; [reflexivity|].
    by rewrite lookup_empty in H.
  - intros d H. discriminate H.
Qed.

Lemma example_edit_runs : example_edit 0 example_world = Some example_world1.
Proof. vm_compute. reflexivity. Qed.


Lemma edit_transfers_line_state_witness :
  ∃ w', example_edit 0 example_world = Some w'
    ∧ view_text (view (dialog w'))
      = toPlainText (dropWhile example_is_indent (lit "  bc"))
    ∧ hl_initial_state (dialog w')
      = Some (example_lexer_state_at example_text 2).
Proof.
  apply (edit_transfers_line_state example_is_indent example_lexer_state_at
           example_get_definition example_gettext example_world 0
           (mkCursor 0 5 5) example_doc
           (lit "a" ++ [newline]) (lit "  bc") ([newline] ++ lit "d") 3).
  - exact I.
  - reflexivity.
  - reflexivity.
  - exact example_is_line.
  - reflexivity.
  - simpl. lia.
Defined.

Lemma edit_frame_witness :
  ∃ w', example_edit 0 example_world = Some w'
    ∧ cursors w' !! 0 = Some (mkCursor 0 5 5)
    ∧ (∀ r c, cursors example_world !! r = Some c → cursors w' !! r = Some c)
    ∧ (∀ x, doc_content <$> docs w' !! x
            = doc_content <$> docs example_world !! x).
Proof.
  apply (edit_frame example_is_indent example_lexer_state_at
           example_get_definition example_gettext example_world 0
           (mkCursor 0 5 5) example_doc).
  - exact I.
  - reflexivity.
  - reflexivity.
  - simpl. lia.
Defined.

Lemma closed_host_rejects_witness :
  ∃ w1 w3,
    example_edit 0 example_world = Some w1
    ∧ visible (Dialog_popup (mkPoint 300 200) (dialog w1)) = true
    ∧ emit_closed 0 (set_dialog (Dialog_popup (mkPoint 300 200)) w1) = Some w3
    ∧ result (dialog w3) = Some Rejected
    ∧ visible (dialog w3) = false
    ∧ docs w3 = docs w1
    ∧ cursors w3 = cursors w1
    ∧ (∀ x, doc_content <$> docs w3 !! x
            = doc_content <$> docs example_world !! x).
Proof.
  apply (closed_host_rejects example_is_indent example_lexer_state_at
           example_get_definition example_gettext example_world 0
           (mkCursor 0 5 5) example_doc (mkPoint 300 200)).
  - exact I.
  - reflexivity.
  - reflexivity.
  - simpl. lia.
Defined.

Lemma second_edit_retargets_witness :
  ∃ w2 h1 h2,
    example_edit 1 example_world1 = Some w2
    ∧ _document (dialog w2) = Some 1
    ∧ _range (dialog w2) = Some (length (cursors example_world1))
    ∧ docs w2 !! 0 = Some h1 ∧ closed_receivers h1 = 0
    ∧ docs w2 !! 1 = Some h2 ∧ closed_receivers h2 = 1
    ∧ emit_closed 0 (set_dialog (Dialog_popup (mkPoint 300 200)) w2)
      = Some (set_dialog (Dialog_popup (mkPoint 300 200)) w2)
    ∧ visible (Dialog_popup (mkPoint 300 200) (dialog w2)) = true
    ∧ result (Dialog_popup (mkPoint 300 200) (dialog w2))
      = result (dialog example_world).
Proof.
  apply (second_edit_retargets example_is_indent example_lexer_state_at
           example_get_definition example_gettext example_world example_world1
           0 (mkCursor 0 5 5) example_doc 1 (mkCursor 1 1 1) example_doc2
           (mkPoint 300 200)).
  - exact example_connected_once.
  - reflexivity.
  - reflexivity.
  - simpl. lia.
  - exact example_edit_runs.
  - reflexivity.
  - reflexivity.
  - simpl. lia.
  - simpl. lia.
Defined.


Lemma save_is_one_undo_step_witness :
  ∃ w' hd',
    Dialog_save nat example_re_indent example_world1 = Some w'
    ∧ docs w' !! 0 = Some hd'
    ∧ doc_text hd'
      = example_re_indent
          (take 4 example_text ++ lit "bc" ++ drop 6 example_text) (4 + 2) 4
    ∧ editBlockDepth hd' = 0
    ∧ ((undoStack hd' = [] ∧ doc_text hd' = example_text)
       ∨ (undoStack hd' = [example_text]
          ∧ doc_text (undo hd') = example_text
          ∧ undoStack (undo hd') = [])).
Proof.
  apply (save_is_one_undo_step example_re_indent example_world1 2
           (mkCursor 0 4 6) (set_closed_receivers 1 example_doc)).
  - reflexivity.
  - reflexivity.
  - reflexivity.
  - simpl. lia.
  - simpl. lia.
  - reflexivity.
Defined.

Lemma updateMessage_contents_witness :
  ∃ w', updateMessage nat example_get_definition example_gettext example_world1
        = Some w'
    ∧ contains (str_of_nat (block_number example_text 6 + 1)) (message (dialog w'))
    ∧ contains (lit "score.ly") (message (dialog w'))
    ∧ contains (lit "<unknown>") (message (dialog w')).
Proof.
  apply (updateMessage_contents example_get_definition example_gettext
           example_world1 0 (set_closed_receivers 1 example_doc) 2
           (mkCursor 0 4 6)).
  - reflexivity.
  - reflexivity.
  - reflexivity.
  - reflexivity.
  - reflexivity.
  - reflexivity.
  - reflexivity.
Defined.

(** * Further properties of the dialog *)

Lemma format_editing_template kw :
  format editing_template kw
  = lit "Editing line " ++ kw (lit "linenum") ++ lit " of " ++ [dquote]
      ++ kw (lit "document") ++ [dquote] ++ lit " ("
      ++ kw (lit "variable") ++ lit ")".
Proof. reflexivity. Qed.

Lemma message_kw_fields a b c :
  message_kw a b c (lit "linenum") = a
  ∧ message_kw a b c (lit "document") = b
  ∧ message_kw a b c (lit "variable") = c.
Proof. by vm_compute. Qed.

Section EditExtras.

Context (is_indent : ascii → bool).
Context {LexState : Type} (lexer_state_at : text → nat → LexState).
Context (get_definition : text → QTextCursor → option text).
Context (gettext : text → text).

Abbreviation edit := (Dialog_edit is_indent LexState lexer_state_at get_definition gettext).


(** X2: the caret of the view lies inside the scratch text.  For a cursor
    behind the indentation of its line, the text after the caret is the
    plain text of what follows the cursor in the host line, and the text
    before it is the plain text of the part of the line between indentation
    and cursor; a cursor inside the indentation puts the caret at the
    start. *)
Theorem edit_caret_alignment (w : World LexState) cursor cur hd pre L post p :
  edit_ready w →
  cursors w !! cursor = Some cur →
  docs w !! cursor_document cur = Some hd →
  is_line (doc_text hd) pre L post →
  position cur = length pre + p →
  p ≤ length L →
  ∃ w', edit cursor w = Some w'
    ∧ view_position (view (dialog w')) ≤ length (view_text (view (dialog w')))
    ∧ (length (takeWhile is_indent L) ≤ p →
       drop (view_position (view (dialog w'))) (view_text (view (dialog w')))
       = toPlainText (drop p L)
       ∧ take (view_position (view (dialog w'))) (view_text (view (dialog w')))
         = toPlainText (drop (length (takeWhile is_indent L)) (take p L)))
    ∧ (p ≤ length (takeWhile is_indent L) →
       view_position (view (dialog w')) = 0).
Proof.
  intros Hready Hcur Hd Hline Hpos Hp.
  destruct (Dialog_edit_spec is_indent lexer_state_at get_definition gettext
              w cursor cur hd pre L post p Hready Hcur Hd Hline Hpos Hp)
    as (w1 & w' & _ & Hedit & _ & _ & Hdlg).
  exists w'. split; [done|]. rewrite Hdlg.
  cbn [view view_text view_position].
  set (k := length (takeWhile is_indent L)).
  assert (Hk : k ≤ length L) by apply length_takeWhile.
  rewrite length_toPlainText, toPlainText_drop, toPlainText_take.
  rewrite dropWhile_drop. fold k. rewrite length_drop.
  split; [lia|]. split.
  - intros Hkp.
    replace (Z.to_nat (Z.max 0 (Z.of_nat p - Z.of_nat k))) with (p - k) by lia.
    split.
    + rewrite drop_drop. do 2 f_equal. lia.
    + rewrite take_drop_commute. do 3 f_equal. lia.
  - intros Hpk. lia.
Qed.

(** X3: [edit] sets the highlighting of the scratch document to the
    highlighting setting of the host document of the cursor, whatever it
    was set to by an earlier [edit]. *)
Theorem edit_copies_highlighting (w : World LexState) cursor cur hd :
  edit_ready w →
  cursors w !! cursor = Some cur →
  docs w !! cursor_document cur = Some hd →
  position cur ≤ length (doc_text hd) →
  ∃ w', edit cursor w = Some w'
    ∧ hl_highlighting (dialog w') = info_highlighting hd.
Proof.
  intros Hready Hcur Hd Hle.
  destruct (line_exists _ _ Hle) as (pre & L & post & p & Hline & Hpos & Hp).
  destruct (Dialog_edit_spec is_indent lexer_state_at get_definition gettext
              w cursor cur hd pre L post p Hready Hcur Hd Hline Hpos Hp)
    as (w1 & w' & _ & Hedit & _ & _ & Hdlg).
  exists w'. split; [done|]. by rewrite Hdlg.
Qed.

(** X4: with the message template as it is written in the code, the message
    after [edit] names the line by the number of lines before it plus one,
    although the tracked range has been moved to the end of the line. *)
Theorem edit_message (w : World LexState) cursor cur hd pre L post p :
  edit_ready w →
  cursors w !! cursor = Some cur →
  docs w !! cursor_document cur = Some hd →
  is_line (doc_text hd) pre L post →
  position cur = length pre + p →
  p ≤ length L →
  gettext editing_template = editing_template →
  ∃ w' c, edit cursor w = Some w'
    ∧ _range (dialog w') ≫= (λ r, cursors w' !! r) = Some c
    ∧ message (dialog w')
      = lit "Editing line " ++ str_of_nat (count_newlines pre + 1)
          ++ lit " of " ++ [dquote] ++ documentName hd ++ [dquote] ++ lit " ("
          ++ or_else (get_definition (doc_text hd) c) (gettext (lit "<unknown>"))
          ++ lit ")".
Proof.
  intros Hready Hcur Hd Hline Hpos Hp Htr.
  destruct (Dialog_edit_spec is_indent lexer_state_at get_definition gettext
              w cursor cur hd pre L post p Hready Hcur Hd Hline Hpos Hp)
    as (w1 & w' & _ & Hedit & _ & Hcs & Hdlg).
  exists w', (tracked_range is_indent (cursor_document cur) pre L).
  split; [done|]. rewrite Hdlg. cbn [_range message mbind option_bind].
  split; [rewrite Hcs; apply lookup_fresh|].
  unfold editing_message. rewrite Htr, format_editing_template.
  by destruct (message_kw_fields
                 (str_of_nat (count_newlines pre + 1)) (documentName hd)
                 (or_else (get_definition (doc_text hd)
                             (tracked_range is_indent (cursor_document cur) pre L))
                          (gettext (lit "<unknown>")))) as (-> & -> & ->).
Qed.

End EditExtras.

Lemma content_lookup (m m' : gmap nat QTextDocument) x hd :
  doc_content <$> m' !! x = doc_content <$> m !! x →
  m !! x = Some hd →
  ∃ hd', m' !! x = Some hd' ∧ doc_content hd' = doc_content hd.
Proof.
  intros H Hx. rewrite Hx in H. destruct (m' !! x) as [hd'|]; [|done].
  exists hd'. split; [done|]. simpl in H. congruence.
Qed.

Lemma doc_content_text hd hd' :
  doc_content hd' = doc_content hd → doc_text hd' = doc_text hd.
Proof. intros H. by apply (f_equal doc_text) in H. Qed.

Section AcceptExtras.

Context (is_indent : ascii → bool).
Context {LexState : Type} (lexer_state_at : text → nat → LexState).
Context (re_indent : text → nat → nat → text).
Context (get_definition : text → QTextCursor → option text).
Context (gettext : text → text).

Abbreviation edit := (Dialog_edit is_indent LexState lexer_state_at get_definition gettext).
Abbreviation accept := (Dialog_accept LexState re_indent).

(** X5: [edit], then the user replaces the scratch text by [new], then the
    dialog is accepted.  The dialog is hidden with result Accepted; the text
    handed to re-indentation is the host text with the part of the line
    behind its indentation replaced by [new], the lines before and after
    and the indentation itself being kept; the span re-indented runs from
    the end of the new text back to the end of the indentation; and the
    whole is at most one undo step of the host document, which leads back to
    the text before. *)
Theorem edit_type_accept (w : World LexState) cursor cur hd pre L post p new :
  edit_ready w →
  cursors w !! cursor = Some cur →
  docs w !! cursor_document cur = Some hd →
  is_line (doc_text hd) pre L post →
  position cur = length pre + p →
  p ≤ length L →
  editBlockDepth hd = 0 →
  let k := length (takeWhile is_indent L) in
  ∃ w1 w2 hd2,
    edit cursor w = Some w1
    ∧ accept (set_dialog (set_view LexState (typed new)) w1) = Some w2
    ∧ result (dialog w2) = Some Accepted
    ∧ visible (dialog w2) = false
    ∧ docs w2 !! cursor_document cur = Some hd2
    ∧ doc_text hd2
      = re_indent (pre ++ take k L ++ new ++ post)
                  (length pre + k + length new) (length pre + k)
    ∧ ((undoStack hd2 = undoStack hd ∧ doc_text hd2 = doc_text hd)
       ∨ (undoStack hd2 = doc_text hd :: undoStack hd
          ∧ doc_text (undo hd2) = doc_text hd))
    ∧ (∀ x, x ≠ cursor_document cur →
            doc_content <$> docs w2 !! x = doc_content <$> docs w !! x).
Proof.
  intros Hready Hcur Hd Hline Hpos Hp H0 k.
  destruct (Dialog_edit_spec is_indent lexer_state_at get_definition gettext
              w cursor cur hd pre L post p Hready Hcur Hd Hline Hpos Hp)
    as (w1 & w' & Htrack & Hedit & Hdocs & Hcs & Hdlg).
  destruct (track_document_spec w _ hd Hready Hd)
    as (w1' & n & Htrack' & _ & _ & Hd1 & Hcontent).
  rewrite Htrack in Htrack'. injection Htrack' as <-.
  fold k in Hcs, Hdlg.
  assert (Hk : k ≤ length L) by apply length_takeWhile.
  pose proof (line_length _ _ _ _ Hline) as Hlen.
  set (wa := set_dialog (hide_with_result LexState Accepted)
               (set_dialog (set_view LexState (typed new)) w')).
  assert (Hr : _range (dialog wa) = Some (length (cursors w))).
  { unfold wa. cbn. by rewrite Hdlg. }
  assert (Hc : cursors wa !! length (cursors w)
               = Some (tracked_range is_indent (cursor_document cur) pre L)).
  { unfold wa. cbn. rewrite Hcs. apply lookup_fresh. }
  assert (Hd' : docs wa !! cursor_document
                  (tracked_range is_indent (cursor_document cur) pre L)
                = Some (set_closed_receivers n hd)).
  { unfold wa. cbn. by rewrite Hdocs. }
  pose proof (Dialog_save_spec re_indent wa _ _ _ Hr Hc Hd') as Hsave.
  cbn [tracked_range anchor position doc_text set_closed_receivers] in Hsave.
  fold k in Hsave. specialize (Hsave ltac:(lia) ltac:(lia)).
  cbv zeta in Hsave. unfold selectionStart, selectionEnd in Hsave.
  cbn [tracked_range anchor position cursor_document] in Hsave. fold k in Hsave.
  rewrite Nat.min_l, Nat.max_r in Hsave by lia.
  assert (Hview : view_text (view (dialog wa)) = new) by (unfold wa; by cbn).
  rewrite Hview in Hsave.
  assert (Hmerged : take (length pre + k) (doc_text hd) ++ new
                      ++ drop (length pre + length L) (doc_text hd)
                    = pre ++ take k L ++ new ++ post).
  { destruct Hline as (Ht & _). rewrite Ht.
    rewrite take_app_add, take_app_le by done.
    rewrite (app_assoc pre L post), drop_app_length' by (rewrite length_app; lia).
    by rewrite <- !app_assoc. }
  rewrite Hmerged in Hsave.
  destruct (edit_block_one_step (set_closed_receivers n hd)
              (pre ++ take k L ++ new ++ post)
              (re_indent (pre ++ take k L ++ new ++ post)
                 (length pre + k + length new) (length pre + k)) H0)
    as (Htext & _ & _ & Hundo).
  exists w'. eexists _, _. split; [done|]. split; [exact Hsave|].
  cbn [docs dialog]. rewrite lookup_insert_eq.
  split; [unfold wa; by cbn|]. split; [unfold wa; by cbn|].
  split; [done|]. split; [done|]. split.
  - destruct Hundo as [Hsame|Hpush]; [by left|right].
    split; [done|]. unfold undo. by rewrite Hpush.
  - intros x Hx. rewrite lookup_insert_ne by done. unfold wa. cbn.
    by rewrite Hdocs.
Qed.

(** X6: [edit] may be called any number of times on one dialog, with
    cursors of any documents: every call succeeds, the dialog stays
    connected to the [closed] signal of the one document it tracks and to
    no other, no document changes its content, and every call leaves one
    more cursor object behind. *)
Theorem edits_keep_one_connection (cs : list nat) (w : World LexState) :
  connected_once w →
  Forall (valid_cursor w) cs →
  ∃ w', Dialog_edits is_indent LexState lexer_state_at get_definition gettext cs w
        = Some w'
    ∧ connected_once w'
    ∧ (∀ d hd', docs w' !! d = Some hd' → closed_receivers hd' ≤ 1)
    ∧ (∀ x, doc_content <$> docs w' !! x = doc_content <$> docs w !! x)
    ∧ length (cursors w') = length (cursors w) + length cs.
Proof.
  revert w. induction cs as [|c cs IH]; intros w Hconn Hvalid.
  - exists w. split; [done|]. split; [done|]. split; [|split; [done|simpl; lia]].
    intros d hd' Hd'. destruct Hconn as [Hn _]. rewrite (Hn _ _ Hd').
    case_bool_decide; lia.
  - apply Forall_cons in Hvalid as [(cur & hd & Hcur & Hd & Hle) Hrest].
    pose proof (connected_once_ready _ Hconn) as Hready.
    destruct (line_exists _ _ Hle) as (pre & L & post & p & Hline & Hpos & Hp).
    destruct (Dialog_edit_spec is_indent lexer_state_at get_definition gettext
                w c cur hd pre L post p Hready Hcur Hd Hline Hpos Hp)
      as (w1 & w' & Htrack & Hedit & Hdocs & Hcs & Hdlg).
    destruct (edit_connected_once is_indent lexer_state_at get_definition gettext
                w c cur hd Hconn Hcur Hd Hle)
      as (w'' & Hedit' & Hconn' & _ & _ & _ & _ & Hcontent).
    rewrite Hedit in Hedit'. injection Hedit' as <-.
    assert (Hvalid' : Forall (valid_cursor w') cs).
    { eapply Forall_impl; [exact Hrest|].
      intros c' (cur' & hd' & Hcur' & Hd' & Hle').
      destruct (content_lookup _ _ _ _ (Hcontent (cursor_document cur')) Hd')
        as (hd'' & Hd'' & Hsame).
      exists cur', hd''. split; [rewrite Hcs; by apply lookup_app_l_Some|].
      split; [done|]. by rewrite (doc_content_text _ _ Hsame). }
    destruct (IH w' Hconn' Hvalid') as (w2 & Hrun & Hconn2 & Hle2 & Hcont2 & Hlen2).
    exists w2. cbn [Dialog_edits]. rewrite Hedit. cbn [mbind option_bind].
    split; [done|]. split; [done|]. split; [done|]. split.
    + intros x. by rewrite Hcont2, Hcontent.
    + rewrite Hlen2, Hcs, length_app. simpl. lia.
Qed.

(** X7: the module function [edit] called with a position makes a dialog
    that is shown, has no result yet, tracks the document of the cursor and
    is connected to its [closed] signal only, and changes the content of no
    document; called without a position (the default), it raises, after the
    new dialog has run its [edit]. *)
Theorem edit_entry_shows (v : View) (geom : QRect) (w : World LexState)
    cursor cur hd pos :
  cursors w !! cursor = Some cur →
  docs w !! cursor_document cur = Some hd →
  position cur ≤ length (doc_text hd) →
  (∃ w', edit_entry is_indent LexState lexer_state_at get_definition gettext
                    v geom cursor (Some pos) w = Some w'
     ∧ visible (dialog w') = true
     ∧ result (dialog w') = None
     ∧ _document (dialog w') = Some (cursor_document cur)
     ∧ connected_once w'
     ∧ (∀ x, doc_content <$> docs w' !! x = doc_content <$> docs w !! x))
  ∧ edit_entry is_indent LexState lexer_state_at get_definition gettext
               v geom cursor None w = None.
Proof.
  intros Hcur Hd Hle. unfold edit_entry.
  set (w0 := mkWorld (set_closed_receivers 0 <$> docs w) (cursors w)
                     (Dialog_init v geom)).
  assert (Hconn : connected_once w0).
  { split.
    - intros d hd0 H. unfold w0 in H. cbn in H. rewrite lookup_fmap in H.
      destruct (docs w !! d); [|done]. by injection H as <-.
    - intros d H. discriminate H. }
  assert (Hd0 : docs w0 !! cursor_document cur = Some (set_closed_receivers 0 hd)).
  { unfold w0. cbn. by rewrite lookup_fmap, Hd. }
  destruct (edit_connected_once is_indent lexer_state_at get_definition gettext
              w0 cursor cur _ Hconn Hcur Hd0 Hle)
    as (w' & Hedit & Hconn' & Hdoc & _ & _ & Hres & Hcontent).
  rewrite Hedit. cbn [mbind option_bind Dialog_popup_opt]. split; [|done].
  eexists. split; [done|]. cbn [set_dialog dialog docs].
  unfold Dialog_popup, show, set_view, setGeometry.
  cbn [visible result _document].
  split; [done|]. split; [by rewrite Hres|]. split; [done|]. split.
  - by apply (connected_once_ext w').
  - intros x. rewrite Hcontent. unfold w0. cbn. rewrite lookup_fmap.
    by destruct (docs w !! x).
Qed.

End AcceptExtras.

(** ** More on the geometry *)

Lemma popup_geometry_by_size {LexState} (g g' : Dialog LexState) pos :
  (x2 (geometry g) - x1 (geometry g) = x2 (geometry g') - x1 (geometry g'))%Z →
  (y2 (geometry g) - y1 (geometry g) = y2 (geometry g') - y1 (geometry g'))%Z →
  geometry (Dialog_popup pos g) = geometry (Dialog_popup pos g').
Proof.
  intros Hw Hh. unfold Dialog_popup. cbn [geometry show set_view setGeometry].
  unfold moveCenter, height. cbn [x1 y1 x2 y2]. rewrite Hw, Hh. done.
Qed.

Lemma popup_keeps_size {LexState} (g : Dialog LexState) pos :
  (x2 (geometry (Dialog_popup pos g)) - x1 (geometry (Dialog_popup pos g))
   = x2 (geometry g) - x1 (geometry g)
   ∧ y2 (geometry (Dialog_popup pos g)) - y1 (geometry (Dialog_popup pos g))
     = y2 (geometry g) - y1 (geometry g))%Z.
Proof.
  unfold Dialog_popup. cbn [geometry show set_view setGeometry].
  destruct (_ <=? _)%Z; unfold moveTop, moveBottom, moveCenter;
    cbn [x1 y1 x2 y2]; lia.
Qed.

(** X8: where [popup] puts the dialog depends on the position and on the
    size of the dialog only, not on where the dialog was: a [popup] after
    an earlier [popup] elsewhere gives the geometry of the [popup] alone. *)
Theorem popup_forgets_place {LexState} (g : Dialog LexState) (pos pos' : QPoint) :
  geometry (Dialog_popup pos (Dialog_popup pos' g))
  = geometry (Dialog_popup pos g).
Proof.
  destruct (popup_keeps_size g pos') as [Hw Hh].
  by apply popup_geometry_by_size.
Qed.

(** X9: [popup] never puts the dialog over the row of the position: either
    the dialog lies below it, its top edge 60 under the position, or, for a
    position lower than the height of the dialog plus 60, above it, its
    bottom edge 60 over the position, and then its top edge is still at a
    positive coordinate. *)
Theorem popup_clears_position {LexState} (g : Dialog LexState) (pos : QPoint) :
  let g' := geometry (Dialog_popup pos g) in
  ((py pos <= height (geometry g) + 60
    ∧ top g' = py pos + 60 ∧ py pos < top g')
   ∨ (height (geometry g) + 60 < py pos
      ∧ bottom g' = py pos - 60 ∧ bottom g' < py pos ∧ 2 <= top g'))%Z.
Proof.
  intros g'. subst g'. unfold Dialog_popup. cbn [geometry show set_view setGeometry].
  assert (Hh : height (moveCenter pos (geometry g)) = height (geometry g)).
  { unfold height, moveCenter. cbn [y1 y2]. lia. }
  rewrite Hh.
  destruct (py pos <=? height (geometry g) + 60)%Z eqn:E.
  - apply Z.leb_le in E. left. unfold top, moveTop. cbn [y1]. lia.
  - apply Z.leb_gt in E. right.
    unfold top, bottom, moveBottom, moveCenter, height in *. cbn [y1 y2]. lia.
Qed.

(** X10: for a dialog whose geometry is not empty in width, the column of
    the position lies within the dialog after [popup]. *)
Theorem popup_spans_position {LexState} (g : Dialog LexState) (pos : QPoint) :
  (x1 (geometry g) <= x2 (geometry g))%Z →
  (x1 (geometry (Dialog_popup pos g)) <= px pos
   ∧ px pos <= x2 (geometry (Dialog_popup pos g)))%Z.
Proof.
  intros Hw. unfold Dialog_popup. cbn [geometry show set_view setGeometry].
  set (wd := (x2 (geometry g) - x1 (geometry g))%Z).
  assert (H0 : (0 <= wd)%Z) by (unfold wd; lia).
  assert (Hq : (0 <= Z.quot wd 2 ∧ Z.quot wd 2 <= wd)%Z).
  { rewrite Z.quot_div_nonneg by lia. split.
    - apply Z.div_pos; lia.
    - apply Z.div_le_upper_bound; lia. }
  destruct (_ <=? _)%Z; unfold moveTop, moveBottom, moveCenter;
    cbn [x1 y1 x2 y2]; fold wd; lia.
Qed.

Lemma popup_spans_position_witness :
  (x1 (geometry (Dialog_popup (mkPoint 300 200) (dialog example_world1))) <= 300
   ∧ 300 <= x2 (geometry (Dialog_popup (mkPoint 300 200) (dialog example_world1))))%Z.
Proof.
  apply (popup_spans_position (dialog example_world1) (mkPoint 300 200)).
  vm_compute. discriminate.
Defined.

(** ** More on the message *)

Section MessageExtras.

Context {LexState : Type}.
Context (get_definition : text → QTextCursor → option text).
Context (gettext : text → text).

(** X11: [updateMessage] changes the message of the dialog and nothing
    else, and the message it sets does not depend on the message before:
    run a second time, it changes nothing. *)
Theorem updateMessage_only_message (w w' : World LexState) :
  updateMessage LexState get_definition gettext w = Some w' →
  docs w' = docs w
  ∧ cursors w' = cursors w
  ∧ dialog w' = setMessage LexState (message (dialog w')) (dialog w)
  ∧ updateMessage LexState get_definition gettext w' = Some w'.
Proof.
  unfold updateMessage. intros H.
  destruct (_document (dialog w)) as [d|] eqn:Ed.
  - destruct (docs w !! d) as [hd|] eqn:Ehd; [|done]. cbn [mbind option_bind] in H.
    destruct (_range (dialog w)) as [r|] eqn:Er; [|done]. cbn [mbind option_bind] in H.
    destruct (cursors w !! r) as [c|] eqn:Ec; [|done]. cbn [mbind option_bind] in H.
    injection H as <-. cbn [set_dialog docs cursors dialog setMessage message
                            _document _range].
    rewrite Ed, Ehd. cbn [mbind option_bind]. rewrite Er. cbn [mbind option_bind].
    rewrite Ec. cbn [mbind option_bind]. done.
  - injection H as <-. cbn [set_dialog docs cursors dialog setMessage message
                            _document _range].
    rewrite Ed. done.
Qed.

End MessageExtras.

Lemma updateMessage_only_message_witness :
  docs example_world1 = docs example_world1
  ∧ cursors example_world1 = cursors example_world1
  ∧ dialog example_world1
    = setMessage nat (message (dialog example_world1)) (dialog example_world1)
  ∧ updateMessage nat example_get_definition example_gettext example_world1
    = Some example_world1.
Proof.
  apply (updateMessage_only_message example_get_definition example_gettext
           example_world1 example_world1).
  vm_compute. reflexivity.
Defined.

(** ** More on the view *)

Section ViewExtras.

Context {QEvent StandardKey : Type}.
Context (InsertLineSeparator : StandardKey).
Context (event_matches : QEvent → StandardKey → bool).
Context (QPlainTextEdit_event : View → QEvent → View * bool).

(** X12: whatever events reach the view, its state afterwards is the one
    the plain-text surface reaches on the events that do not equal the key
    combination of [InsertLineSeparator]: those that do are dropped, one
    by one, wherever they come in the sequence. *)
Theorem View_events_filter (evs : list QEvent) (v : View) :
  View_events QEvent StandardKey InsertLineSeparator event_matches
              QPlainTextEdit_event v evs
  = QPlainTextEdit_events QEvent QPlainTextEdit_event v
      (List.filter (λ ev, negb (event_matches ev InsertLineSeparator)) evs).
Proof.
  revert v. induction evs as [|ev evs IH]; intros v; [done|].
  cbn [View_events List.filter]. unfold View_event.
  destruct (event_matches ev InsertLineSeparator); cbn [negb fst].
  - apply IH.
  - cbn [QPlainTextEdit_events]. apply IH.
Qed.

End ViewExtras.

(** ** The further properties at work in the small world *)

Lemma example_valid_cursors : Forall (valid_cursor example_world) [0; 1; 0].
Proof.
  repeat constructor.
  - exists (mkCursor 0 5 5), example_doc. repeat split. simpl. lia.
  - exists (mkCursor 1 1 1), example_doc2. repeat split. simpl. lia.
  - exists (mkCursor 0 5 5), example_doc. repeat split. simpl. lia.
Qed.


Lemma edit_caret_alignment_witness :
  ∃ w', example_edit 0 example_world = Some w'
    ∧ view_position (view (dialog w')) ≤ length (view_text (view (dialog w')))
    ∧ (length (takeWhile example_is_indent (lit "  bc")) ≤ 3 →
       drop (view_position (view (dialog w'))) (view_text (view (dialog w')))
       = toPlainText (drop 3 (lit "  bc"))
       ∧ take (view_position (view (dialog w'))) (view_text (view (dialog w')))
         = toPlainText (drop (length (takeWhile example_is_indent (lit "  bc")))
                             (take 3 (lit "  bc"))))
    ∧ (3 ≤ length (takeWhile example_is_indent (lit "  bc")) →
       view_position (view (dialog w')) = 0).
Proof.
  apply (edit_caret_alignment example_is_indent example_lexer_state_at
           example_get_definition example_gettext example_world 0
           (mkCursor 0 5 5) example_doc
           (lit "a" ++ [newline]) (lit "  bc") ([newline] ++ lit "d") 3).
  - exact I.
  - reflexivity.
  - reflexivity.
  - exact example_is_line.
  - reflexivity.
  - simpl. lia.
Defined.

Lemma edit_copies_highlighting_witness :
  ∃ w', example_edit 1 example_world1 = Some w'
    ∧ hl_highlighting (dialog w') = info_highlighting example_doc2.
Proof.
  apply (edit_copies_highlighting example_is_indent example_lexer_state_at
           example_get_definition example_gettext example_world1 1
           (mkCursor 1 1 1) example_doc2).
  - exists (set_closed_receivers 1 example_doc). split; [reflexivity|simpl; lia].
  - reflexivity.
  - reflexivity.
  - simpl. lia.
Defined.

Lemma edit_message_witness :
  ∃ w' c, example_edit 0 example_world = Some w'
    ∧ _range (dialog w') ≫= (λ r, cursors w' !! r) = Some c
    ∧ message (dialog w')
      = lit "Editing line "
          ++ str_of_nat (count_newlines (lit "a" ++ [newline]) + 1)
          ++ lit " of " ++ [dquote] ++ documentName example_doc ++ [dquote]
          ++ lit " ("
          ++ or_else (example_get_definition (doc_text example_doc) c)
                     (example_gettext (lit "<unknown>"))
          ++ lit ")".
Proof.
  apply (edit_message example_is_indent example_lexer_state_at
           example_get_definition example_gettext example_world 0
           (mkCursor 0 5 5) example_doc
           (lit "a" ++ [newline]) (lit "  bc") ([newline] ++ lit "d") 3).
  - exact I.
  - reflexivity.
  - reflexivity.
  - exact example_is_line.
  - reflexivity.
  - simpl. lia.
  - reflexivity.
Defined.

Lemma edit_type_accept_witness :
  ∃ w1 w2 hd2,
    example_edit 0 example_world = Some w1
    ∧ Dialog_accept nat example_re_indent
        (set_dialog (set_view nat (typed (lit "xyz"))) w1) = Some w2
    ∧ result (dialog w2) = Some Accepted
    ∧ visible (dialog w2) = false
    ∧ docs w2 !! 0 = Some hd2
    ∧ doc_text hd2
      = example_re_indent
          ((lit "a" ++ [newline])
             ++ take (length (takeWhile example_is_indent (lit "  bc"))) (lit "  bc")
             ++ lit "xyz" ++ [newline] ++ lit "d")
          (length (lit "a" ++ [newline])
           + length (takeWhile example_is_indent (lit "  bc"))
           + length (lit "xyz"))
          (length (lit "a" ++ [newline])
           + length (takeWhile example_is_indent (lit "  bc")))
    ∧ ((undoStack hd2 = undoStack example_doc ∧ doc_text hd2 = doc_text example_doc)
       ∨ (undoStack hd2 = doc_text example_doc :: undoStack example_doc
          ∧ doc_text (undo hd2) = doc_text example_doc))
    ∧ (∀ x, x ≠ 0 →
            doc_content <$> docs w2 !! x
            = doc_content <$> docs example_world !! x).
Proof.
  apply (edit_type_accept example_is_indent example_lexer_state_at
           example_re_indent example_get_definition example_gettext
           example_world 0 (mkCursor 0 5 5) example_doc
           (lit "a" ++ [newline]) (lit "  bc") ([newline] ++ lit "d") 3
           (lit "xyz")).
  - exact I.
  - reflexivity.
  - reflexivity.
  - exact example_is_line.
  - reflexivity.
  - simpl. lia.
  - reflexivity.
Defined.

Lemma edits_keep_one_connection_witness :
  ∃ w', Dialog_edits example_is_indent nat example_lexer_state_at
          example_get_definition example_gettext [0; 1; 0] example_world
        = Some w'
    ∧ connected_once w'
    ∧ (∀ d hd', docs w' !! d = Some hd' → closed_receivers hd' ≤ 1)
    ∧ (∀ x, doc_content <$> docs w' !! x
            = doc_content <$> docs example_world !! x)
    ∧ length (cursors w') = length (cursors example_world) + length [0; 1; 0].
Proof.
  apply (edits_keep_one_connection example_is_indent example_lexer_state_at
           example_get_definition example_gettext [0; 1; 0] example_world).
  - exact example_connected_once.
  - exact example_valid_cursors.
Defined.

Lemma edit_entry_shows_witness :
  (∃ w', edit_entry example_is_indent nat example_lexer_state_at
           example_get_definition example_gettext
           (mkView [] 0 0 false) (mkRect 0 0 99 49) 1 (Some (mkPoint 300 200))
           example_world1 = Some w'
     ∧ visible (dialog w') = true
     ∧ result (dialog w') = None
     ∧ _document (dialog w') = Some 1
     ∧ connected_once w'
     ∧ (∀ x, doc_content <$> docs w' !! x
             = doc_content <$> docs example_world1 !! x))
  ∧ edit_entry example_is_indent nat example_lexer_state_at
      example_get_definition example_gettext
      (mkView [] 0 0 false) (mkRect 0 0 99 49) 1 None example_world1 = None.
Proof.
  apply (edit_entry_shows example_is_indent example_lexer_state_at
           example_get_definition example_gettext
           (mkView [] 0 0 false) (mkRect 0 0 99 49) example_world1
           1 (mkCursor 1 1 1) example_doc2 (mkPoint 300 200)).
  - reflexivity.
  - reflexivity.
  - simpl. lia.
Defined.

(** ** A line with a no-break space *)


